(** * xenia/gpu/shader.h: the parsed-instruction model and its derived queries

    A shallow embedding of the inline functions of [shader.h]:
    instruction results and operands, the paired vector/scalar ALU
    instruction with its no-op tests and memexport pattern match, and the
    packing of float constants of [Shader::ConstantRegisterMap].

    Conventions.  A [uint32_t] or [uint64_t] is a [Z]; where the C++
    arithmetic can wrap, the wrap-around is written out with [uint32] and
    [uint64].  A C array of fixed size [T x[n]] is a [vec T n]; an access
    with an index computed at run time is a partial lookup ([None] is an
    access outside the array), an access with a literal index is total.
    Scoped enumerations ([enum class]) are inductive types inside a module
    of the enumeration's name. *)

From Stdlib Require Import ZArith Lia Ascii String.
From stdpp Require Import base decidable option numbers fin vector list finite.

Local Open Scope Z_scope.

(** ** Machine integers *)

Definition uint32 (z : Z) : Z := z mod 2 ^ 32.
Definition uint64 (z : Z) : Z := z mod 2 ^ 64.
Definition UINT32_MAX : Z := 2 ^ 32 - 1.

(** [for (uint32_t i = 0; i < bound; ++i) body], threading the state the
    body updates; the body may fail (an access outside an array). *)
Fixpoint for_range {S : Type} (count : nat) (i : Z)
    (body : Z → S → option S) (s : S) : option S :=
  match count with
  | O => Some s
  | Datatypes.S count' => s' ← body i s; for_range count' (i + 1) body s'
  end.

Definition for_upto {S : Type} (bound : Z) (body : Z → S → option S) (s : S)
    : option S :=
  for_range (Z.to_nat bound) 0 body s.

(** [a[i]] for a run-time index [i]. *)
Definition at_index {A : Type} {n : nat} (a : vec A n) (i : Z) : option A :=
  if bool_decide (0 ≤ i) then vec_to_list a !! Z.to_nat i else None.

(** ** Enumerations *)

Module InstructionStorageTarget.
Inductive t : Set :=
| kNone
| kRegister
| kInterpolator
| kPosition
| kPointSizeEdgeFlagKillVertex
| kExportAddress
| kExportData
| kColor
| kDepth.
#[global] Instance eq_dec : EqDecision t.
Proof. solve_decision. Defined.
End InstructionStorageTarget.

Definition GetInstructionStorageTargetUsedComponents
    (target : InstructionStorageTarget.t) : Z :=
  match target with
  | InstructionStorageTarget.kNone => 0                          (* 0b0000 *)
  | InstructionStorageTarget.kPointSizeEdgeFlagKillVertex => 7   (* 0b0111 *)
  | InstructionStorageTarget.kDepth => 1                         (* 0b0001 *)
  | _ => 15                                                      (* 0b1111 *)
  end.

Module InstructionStorageAddressingMode.
Inductive t : Set :=
| kStatic
| kAddressAbsolute
| kAddressRelative.
#[global] Instance eq_dec : EqDecision t.
Proof. solve_decision. Defined.
End InstructionStorageAddressingMode.

Module SwizzleSource.
Inductive t : Set :=
| kX
| kY
| kZ
| kW
| k0
| k1.
#[global] Instance eq_dec : EqDecision t.
Proof. solve_decision. Defined.

#[global, refine] Instance finite : Finite t :=
  {| enum := [kX; kY; kZ; kW; k0; k1] |}.
Proof.
  - by apply (bool_decide_unpack _).
  - intros []; by apply (bool_decide_unpack _).
Defined.

(** The enumerator's value, [uint32_t(s)]. *)
Definition to_uint32 (s : t) : Z :=
  match s with
  | kX => 0 | kY => 1 | kZ => 2 | kW => 3 | k0 => 4 | k1 => 5
  end.
End SwizzleSource.

Module InstructionStorageSource.
Inductive t : Set :=
| kRegister
| kConstantFloat
| kVertexFetchConstant
| kTextureFetchConstant.
#[global] Instance eq_dec : EqDecision t.
Proof. solve_decision. Defined.
End InstructionStorageSource.

(** The default member initialiser of both [components] arrays. *)
Definition xyzw : vec SwizzleSource.t 4 :=
  [# SwizzleSource.kX; SwizzleSource.kY; SwizzleSource.kZ; SwizzleSource.kW].

(** [static_cast<SwizzleSource>(i)]: the enumerator of value [i]; [None]
    when [i] is the value of no enumerator. *)
Definition GetSwizzleFromComponentIndex (i : Z) : option SwizzleSource.t :=
  match i with
  | 0 => Some SwizzleSource.kX
  | 1 => Some SwizzleSource.kY
  | 2 => Some SwizzleSource.kZ
  | 3 => Some SwizzleSource.kW
  | 4 => Some SwizzleSource.k0
  | 5 => Some SwizzleSource.k1
  | _ => None
  end.

(** [kChars[i]] in the four-element table of [GetCharForComponentIndex]. *)
Definition GetCharForComponentIndex (i : Z) : option ascii :=
  at_index [# "x"; "y"; "z"; "w"]%char i.

(** [kChars[static_cast<uint32_t>(swizzle_source)]] in the six-element
    table of [GetCharForSwizzle]. *)
Definition GetCharForSwizzle (swizzle_source : SwizzleSource.t) : option ascii :=
  at_index [# "x"; "y"; "z"; "w"; "0"; "1"]%char
           (SwizzleSource.to_uint32 swizzle_source).

(** ** struct InstructionResult *)

Module InstructionResult.
Record t : Set := Build {
  storage_target : InstructionStorageTarget.t;
  storage_index : Z;
  storage_addressing_mode : InstructionStorageAddressingMode.t;
  is_clamped : bool;
  original_write_mask : Z;
  components : vec SwizzleSource.t 4
}.

Definition default : t := {|
  storage_target := InstructionStorageTarget.kNone;
  storage_index := 0;
  storage_addressing_mode := InstructionStorageAddressingMode.kStatic;
  is_clamped := false;
  original_write_mask := 0;
  components := xyzw
|}.

Definition GetUsedWriteMask (this : t) : Z :=
  Z.land (original_write_mask this)
         (GetInstructionStorageTargetUsedComponents (storage_target this)).

Definition IsStandardSwizzle (this : t) : bool :=
  (GetUsedWriteMask this =? 15)
  && bool_decide (components this !!! 0%fin = SwizzleSource.kX)
  && bool_decide (components this !!! 1%fin = SwizzleSource.kY)
  && bool_decide (components this !!! 2%fin = SwizzleSource.kZ)
  && bool_decide (components this !!! 3%fin = SwizzleSource.kW).

(** One iteration of the loop of [GetUsedResultComponents]; the body reads
    [components[i]] and the local [used_write_mask]. *)
Definition used_result_components_step (components : vec SwizzleSource.t 4)
    (used_write_mask : Z) (i : Z) (used_components : Z) : option Z :=
  c ← at_index components i;
  Some (if negb (Z.land used_write_mask (Z.shiftl 1 i) =? 0)
           && (SwizzleSource.to_uint32 SwizzleSource.kX
                 <=? SwizzleSource.to_uint32 c)
           && (SwizzleSource.to_uint32 c
                 <=? SwizzleSource.to_uint32 SwizzleSource.kW)
        then Z.lor used_components
               (Z.shiftl 1 (uint32 (SwizzleSource.to_uint32 c
                                    - SwizzleSource.to_uint32 SwizzleSource.kX)))
        else used_components).

Definition GetUsedResultComponents (this : t) : option Z :=
  let used_write_mask := GetUsedWriteMask this in
  for_upto 4 (used_result_components_step (components this) used_write_mask) 0.
End InstructionResult.

(** ** struct InstructionOperand *)

Module InstructionOperand.
Record t : Set := Build {
  storage_source : InstructionStorageSource.t;
  storage_index : Z;
  storage_addressing_mode : InstructionStorageAddressingMode.t;
  is_negated : bool;
  is_absolute_value : bool;
  component_count : Z;
  components : vec SwizzleSource.t 4
}.

Definition default : t := {|
  storage_source := InstructionStorageSource.kRegister;
  storage_index := 0;
  storage_addressing_mode := InstructionStorageAddressingMode.kStatic;
  is_negated := false;
  is_absolute_value := false;
  component_count := 4;
  components := xyzw
|}.

(** [components[std::min(index, component_count - 1)]], the subtraction
    in [uint32_t]. *)
Definition GetComponent (this : t) (index : Z) : option SwizzleSource.t :=
  at_index (components this)
           (Z.min index (uint32 (component_count this - 1))).

Definition IsStandardSwizzle (this : t) : bool :=
  if component_count this =? 4 then
    bool_decide (components this !!! 0%fin = SwizzleSource.kX)
    && bool_decide (components this !!! 1%fin = SwizzleSource.kY)
    && bool_decide (components this !!! 2%fin = SwizzleSource.kZ)
    && bool_decide (components this !!! 3%fin = SwizzleSource.kW)
  else false.

(** One iteration of the loop of [GetAbsoluteIdenticalComponents]. *)
Definition identical_components_step (this other : t)
    (i : Z) (identical_components : Z) : option Z :=
  a ← GetComponent this i;
  b ← GetComponent other i;
  Some (Z.lor identical_components
              (Z.shiftl (Z.b2z (bool_decide (a = b))) i)).

Definition GetAbsoluteIdenticalComponents (this other : t) : option Z :=
  if bool_decide (storage_source this ≠ storage_source other)
     || bool_decide (storage_index this ≠ storage_index other)
     || bool_decide (storage_addressing_mode this
                     ≠ storage_addressing_mode other)
  then Some 0
  else for_upto 4 (identical_components_step this other) 0.

Definition GetIdenticalComponents (this other : t) : option Z :=
  if bool_decide (is_negated this ≠ is_negated other)
     || bool_decide (is_absolute_value this ≠ is_absolute_value other)
  then Some 0
  else GetAbsoluteIdenticalComponents this other.
End InstructionOperand.

(** ** The declarations of xenia/gpu/ucode.h used by the ALU instruction

    [ucode.h] is not among the sources.  [shader.h] needs from it the two
    opcode enumerations with their equality, five of their enumerators and
    the predicate [AluVectorOpHasSideEffects]; they are parameters of the
    development: every theorem below holds for each way of filling them. *)

Module ucode.
Class decls : Type := {
  AluVectorOpcode : Type;
  AluVectorOpcode_eq_dec :: EqDecision AluVectorOpcode;
  AluScalarOpcode : Type;
  AluScalarOpcode_eq_dec :: EqDecision AluScalarOpcode;
  (* AluVectorOpcode::kAdd, ::kMax, ::kMad *)
  kAdd : AluVectorOpcode;
  kMax : AluVectorOpcode;
  kMad : AluVectorOpcode;
  (* AluScalarOpcode::kAdds, ::kRetainPrev *)
  kAdds : AluScalarOpcode;
  kRetainPrev : AluScalarOpcode;
  AluVectorOpHasSideEffects : AluVectorOpcode → bool
}.
End ucode.
#[global] Existing Instance ucode.AluVectorOpcode_eq_dec.
#[global] Existing Instance ucode.AluScalarOpcode_eq_dec.

(** ** struct ParsedAluInstruction *)

Module ParsedAluInstruction.
Record t `{ucode.decls} : Type := Build {
  vector_opcode : ucode.AluVectorOpcode;
  scalar_opcode : ucode.AluScalarOpcode;
  (* const char*, nullptr is None *)
  vector_opcode_name : option string;
  scalar_opcode_name : option string;
  is_predicated : bool;
  predicate_condition : bool;
  vector_and_constant_result : InstructionResult.t;
  scalar_result : InstructionResult.t;
  vector_operand_count : Z;
  vector_operands : vec InstructionOperand.t 3;
  scalar_operand_count : Z;
  scalar_operands : vec InstructionOperand.t 2
}.
Arguments Build {_} _ _ _ _ _ _ _ _ _ _ _ _.

Definition default `{ucode.decls} : t := {|
  vector_opcode := ucode.kAdd;
  scalar_opcode := ucode.kAdds;
  vector_opcode_name := None;
  scalar_opcode_name := None;
  is_predicated := false;
  predicate_condition := false;
  vector_and_constant_result := InstructionResult.default;
  scalar_result := InstructionResult.default;
  vector_operand_count := 0;
  vector_operands := [# InstructionOperand.default; InstructionOperand.default;
                        InstructionOperand.default];
  scalar_operand_count := 0;
  scalar_operands := [# InstructionOperand.default; InstructionOperand.default]
|}.

Section queries.
Context `{ucode.decls}.

Definition IsScalarOpDefaultNop (this : t) : bool :=
  if bool_decide (scalar_opcode this ≠ ucode.kRetainPrev)
     || negb (InstructionResult.original_write_mask (scalar_result this) =? 0)
     || InstructionResult.is_clamped (scalar_result this)
  then false
  else if bool_decide (InstructionResult.storage_target (scalar_result this)
                       = InstructionStorageTarget.kRegister)
  then
    if bool_decide (InstructionResult.storage_index (scalar_result this) ≠ 0)
       || bool_decide
            (InstructionResult.storage_addressing_mode (scalar_result this)
             ≠ InstructionStorageAddressingMode.kStatic)
    then false
    else true
  else true.

Definition IsVectorOpDefaultNop (this : t) : bool :=
  if bool_decide (vector_opcode this ≠ ucode.kMax)
     || negb (InstructionResult.original_write_mask
                (vector_and_constant_result this) =? 0)
     || InstructionResult.is_clamped (vector_and_constant_result this)
     || bool_decide
          (InstructionOperand.storage_source (vector_operands this !!! 0%fin)
           ≠ InstructionStorageSource.kRegister)
     || bool_decide
          (InstructionOperand.storage_index (vector_operands this !!! 0%fin) ≠ 0)
     || bool_decide
          (InstructionOperand.storage_addressing_mode
             (vector_operands this !!! 0%fin)
           ≠ InstructionStorageAddressingMode.kStatic)
     || InstructionOperand.is_negated (vector_operands this !!! 0%fin)
     || InstructionOperand.is_absolute_value (vector_operands this !!! 0%fin)
     || negb (InstructionOperand.IsStandardSwizzle
                (vector_operands this !!! 0%fin))
     || bool_decide
          (InstructionOperand.storage_source (vector_operands this !!! 1%fin)
           ≠ InstructionStorageSource.kRegister)
     || bool_decide
          (InstructionOperand.storage_index (vector_operands this !!! 1%fin) ≠ 0)
     || bool_decide
          (InstructionOperand.storage_addressing_mode
             (vector_operands this !!! 1%fin)
           ≠ InstructionStorageAddressingMode.kStatic)
     || InstructionOperand.is_negated (vector_operands this !!! 1%fin)
     || InstructionOperand.is_absolute_value (vector_operands this !!! 1%fin)
     || negb (InstructionOperand.IsStandardSwizzle
                (vector_operands this !!! 1%fin))
  then false
  else if bool_decide
            (InstructionResult.storage_target (vector_and_constant_result this)
             = InstructionStorageTarget.kRegister)
  then
    if bool_decide
         (InstructionResult.storage_index (vector_and_constant_result this) ≠ 0)
       || bool_decide
            (InstructionResult.storage_addressing_mode
               (vector_and_constant_result this)
             ≠ InstructionStorageAddressingMode.kStatic)
    then false
    else true
  else
    if IsScalarOpDefaultNop this then false else true.

Definition IsNop (this : t) : bool :=
  bool_decide (scalar_opcode this = ucode.kRetainPrev)
  && (InstructionResult.GetUsedWriteMask (scalar_result this) =? 0)
  && (InstructionResult.GetUsedWriteMask (vector_and_constant_result this) =? 0)
  && negb (ucode.AluVectorOpHasSideEffects (vector_opcode this)).

(** The condition of the [if] of [GetMemExportStreamConstant]; [None] when
    evaluating it leaves an array. *)
Definition is_stream_constant_mad (this : t) : option bool :=
  used ← InstructionResult.GetUsedResultComponents
            (vector_and_constant_result this);
  Some (bool_decide
          (InstructionResult.storage_target (vector_and_constant_result this)
           = InstructionStorageTarget.kExportAddress)
        && bool_decide (vector_opcode this = ucode.kMad)
        && (used =? 15)
        && negb (InstructionResult.is_clamped (vector_and_constant_result this))
        && bool_decide
             (InstructionOperand.storage_source (vector_operands this !!! 2%fin)
              = InstructionStorageSource.kConstantFloat)
        && bool_decide
             (InstructionOperand.storage_addressing_mode
                (vector_operands this !!! 2%fin)
              = InstructionStorageAddressingMode.kStatic)
        && InstructionOperand.IsStandardSwizzle (vector_operands this !!! 2%fin)
        && negb (InstructionOperand.is_negated (vector_operands this !!! 2%fin))
        && negb (InstructionOperand.is_absolute_value
                   (vector_operands this !!! 2%fin))).

Definition GetMemExportStreamConstant (this : t) : option Z :=
  matched ← is_stream_constant_mad this;
  Some (if matched : bool
        then InstructionOperand.storage_index (vector_operands this !!! 2%fin)
        else UINT32_MAX).

End queries.
End ParsedAluInstruction.

(** Modelled from the spec: [ucode.h] is absent, and running the queries
    on a concrete instruction needs one way of filling its declarations.
    The opcodes are the ones the spec and [shader.h] name (add, the
    max-style default, multiply-add; scalar add, retain previous value)
    and one vector opcode with side effects beyond its masked result. *)
Module sample_ucode.
Inductive vector_opcode : Set := vAdd | vMax | vMad | vSideEffect.
Inductive scalar_opcode : Set := sAdds | sRetainPrev.
#[global] Instance vector_eq_dec : EqDecision vector_opcode.
Proof. solve_decision. Defined.
#[global] Instance scalar_eq_dec : EqDecision scalar_opcode.
Proof. solve_decision. Defined.
Definition has_side_effects (op : vector_opcode) : bool :=
  match op with vSideEffect => true | _ => false end.
Definition instance : ucode.decls := {|
  ucode.AluVectorOpcode := vector_opcode;
  ucode.AluScalarOpcode := scalar_opcode;
  ucode.kAdd := vAdd;
  ucode.kMax := vMax;
  ucode.kMad := vMad;
  ucode.kAdds := sAdds;
  ucode.kRetainPrev := sRetainPrev;
  ucode.AluVectorOpHasSideEffects := has_side_effects
|}.
End sample_ucode.

(** ** Changing one field of an instruction

    A value of [alu_field] names one field of a [ParsedAluInstruction]
    (down to a field of one of its results or operands, or one element of
    a [components] array) together with the value written to it. *)

Module FieldChange.
Inductive result_field : Set :=
| r_storage_target (v : InstructionStorageTarget.t)
| r_storage_index (v : Z)
| r_storage_addressing_mode (v : InstructionStorageAddressingMode.t)
| r_is_clamped (v : bool)
| r_original_write_mask (v : Z)
| r_components (lane : fin 4) (v : SwizzleSource.t).

Inductive operand_field : Set :=
| o_storage_source (v : InstructionStorageSource.t)
| o_storage_index (v : Z)
| o_storage_addressing_mode (v : InstructionStorageAddressingMode.t)
| o_is_negated (v : bool)
| o_is_absolute_value (v : bool)
| o_component_count (v : Z)
| o_components (lane : fin 4) (v : SwizzleSource.t).

Inductive alu_field `{ucode.decls} : Type :=
| a_vector_opcode (v : ucode.AluVectorOpcode)
| a_scalar_opcode (v : ucode.AluScalarOpcode)
| a_vector_opcode_name (v : option string)
| a_scalar_opcode_name (v : option string)
| a_is_predicated (v : bool)
| a_predicate_condition (v : bool)
| a_vector_and_constant_result (f : result_field)
| a_scalar_result (f : result_field)
| a_vector_operand_count (v : Z)
| a_vector_operands (k : fin 3) (f : operand_field)
| a_scalar_operand_count (v : Z)
| a_scalar_operands (k : fin 2) (f : operand_field).

Definition set_result (f : result_field) (r : InstructionResult.t)
    : InstructionResult.t :=
  let '(InstructionResult.Build tg ix am cl wm cs) := r in
  match f with
  | r_storage_target v => InstructionResult.Build v ix am cl wm cs
  | r_storage_index v => InstructionResult.Build tg v am cl wm cs
  | r_storage_addressing_mode v => InstructionResult.Build tg ix v cl wm cs
  | r_is_clamped v => InstructionResult.Build tg ix am v wm cs
  | r_original_write_mask v => InstructionResult.Build tg ix am cl v cs
  | r_components lane v => InstructionResult.Build tg ix am cl wm (vinsert lane v cs)
  end.

Definition set_operand (f : operand_field) (o : InstructionOperand.t)
    : InstructionOperand.t :=
  let '(InstructionOperand.Build src ix am ng ab cc cs) := o in
  match f with
  | o_storage_source v => InstructionOperand.Build v ix am ng ab cc cs
  | o_storage_index v => InstructionOperand.Build src v am ng ab cc cs
  | o_storage_addressing_mode v => InstructionOperand.Build src ix v ng ab cc cs
  | o_is_negated v => InstructionOperand.Build src ix am v ab cc cs
  | o_is_absolute_value v => InstructionOperand.Build src ix am ng v cc cs
  | o_component_count v => InstructionOperand.Build src ix am ng ab v cs
  | o_components lane v => InstructionOperand.Build src ix am ng ab cc (vinsert lane v cs)
  end.

Definition set_alu `{ucode.decls} (f : alu_field) (i : ParsedAluInstruction.t)
    : ParsedAluInstruction.t :=
  let '(ParsedAluInstruction.Build vo so vn sn pr pc vr sr vc vs sc ss) := i in
  match f with
  | a_vector_opcode v => ParsedAluInstruction.Build v so vn sn pr pc vr sr vc vs sc ss
  | a_scalar_opcode v => ParsedAluInstruction.Build vo v vn sn pr pc vr sr vc vs sc ss
  | a_vector_opcode_name v => ParsedAluInstruction.Build vo so v sn pr pc vr sr vc vs sc ss
  | a_scalar_opcode_name v => ParsedAluInstruction.Build vo so vn v pr pc vr sr vc vs sc ss
  | a_is_predicated v => ParsedAluInstruction.Build vo so vn sn v pc vr sr vc vs sc ss
  | a_predicate_condition v => ParsedAluInstruction.Build vo so vn sn pr v vr sr vc vs sc ss
  | a_vector_and_constant_result g =>
      ParsedAluInstruction.Build vo so vn sn pr pc (set_result g vr) sr vc vs sc ss
  | a_scalar_result g =>
      ParsedAluInstruction.Build vo so vn sn pr pc vr (set_result g sr) vc vs sc ss
  | a_vector_operand_count v => ParsedAluInstruction.Build vo so vn sn pr pc vr sr v vs sc ss
  | a_vector_operands k g =>
      ParsedAluInstruction.Build vo so vn sn pr pc vr sr vc
        (vinsert k (set_operand g (vs !!! k)) vs) sc ss
  | a_scalar_operand_count v => ParsedAluInstruction.Build vo so vn sn pr pc vr sr vc vs v ss
  | a_scalar_operands k g =>
      ParsedAluInstruction.Build vo so vn sn pr pc vr sr vc vs sc
        (vinsert k (set_operand g (ss !!! k)) ss)
  end.

(** The change writes a value other than the one the field holds. *)
Definition alu_differs `{ucode.decls} (f : alu_field)
    (i : ParsedAluInstruction.t) : Prop :=
  set_alu f i ≠ i.

(** The fields the first [if] of [IsVectorOpDefaultNop] and its register
    branch read: the vector opcode; of the vector result, everything but
    the target and the swizzle; of the first two vector operands,
    everything. *)
Definition read_by_vector_nop `{ucode.decls} (f : alu_field) : bool :=
  match f with
  | a_vector_opcode _ => true
  | a_vector_and_constant_result g =>
      match g with
      | r_storage_target _ | r_components _ _ => false
      | _ => true
      end
  | a_vector_operands k _ => bool_decide (k ≠ 2%fin)
  | _ => false
  end.

(** The change sets the target of the vector result. *)
Definition sets_vector_target `{ucode.decls} (f : alu_field) : bool :=
  match f with
  | a_vector_and_constant_result (r_storage_target _) => true
  | _ => false
  end.
End FieldChange.

(** An operand as the assembler writes it for an omitted operation:
    register 0, statically addressed, no modifier, the swizzle [xyzw] on
    four components. *)
Definition is_default_operand (o : InstructionOperand.t) : Prop :=
  InstructionOperand.storage_source o = InstructionStorageSource.kRegister
  ∧ InstructionOperand.storage_index o = 0
  ∧ InstructionOperand.storage_addressing_mode o
    = InstructionStorageAddressingMode.kStatic
  ∧ InstructionOperand.is_negated o = false
  ∧ InstructionOperand.is_absolute_value o = false
  ∧ InstructionOperand.component_count o = 4
  ∧ InstructionOperand.components o = xyzw.

(** The vector side of an instruction is fully default: the opcode is
    [kMax], the original write mask is empty, the result is not clamped and
    the first two vector operands are default operands. *)
Definition vector_side_default `{ucode.decls} (i : ParsedAluInstruction.t)
    : Prop :=
  let r := ParsedAluInstruction.vector_and_constant_result i in
  ParsedAluInstruction.vector_opcode i = ucode.kMax
  ∧ InstructionResult.original_write_mask r = 0
  ∧ InstructionResult.is_clamped r = false
  ∧ is_default_operand (ParsedAluInstruction.vector_operands i !!! 0%fin)
  ∧ is_default_operand (ParsedAluInstruction.vector_operands i !!! 1%fin).

(** The result of the vector operation goes to register 0, statically
    addressed. *)
Definition targets_plain_register `{ucode.decls} (i : ParsedAluInstruction.t)
    : Prop :=
  let r := ParsedAluInstruction.vector_and_constant_result i in
  InstructionResult.storage_target r = InstructionStorageTarget.kRegister
  ∧ InstructionResult.storage_index r = 0
  ∧ InstructionResult.storage_addressing_mode r
    = InstructionStorageAddressingMode.kStatic.

(** The default-constructed instruction with the vector opcode set to
    [kMax] and the vector result sent to a register: its vector side is
    fully default. *)
Definition omitted_vector_op `{ucode.decls} : ParsedAluInstruction.t :=
  FieldChange.set_alu (FieldChange.a_vector_opcode ucode.kMax)
    (FieldChange.set_alu
       (FieldChange.a_vector_and_constant_result
          (FieldChange.r_storage_target InstructionStorageTarget.kRegister))
       ParsedAluInstruction.default).

(** A write of the memexport address as [GetMemExportStreamConstant]
    looks for it: a multiply-add to the export address, all four lanes
    written and not clamped, the third operand the float constant
    [constant] (static, standard swizzle, no modifier); the swizzle of the
    result is left open. *)
Definition export_address_mad `{ucode.decls}
    (swizzle : vec SwizzleSource.t 4) (constant : Z)
    : ParsedAluInstruction.t := {|
  ParsedAluInstruction.vector_opcode := ucode.kMad;
  ParsedAluInstruction.scalar_opcode := ucode.kRetainPrev;
  ParsedAluInstruction.vector_opcode_name := None;
  ParsedAluInstruction.scalar_opcode_name := None;
  ParsedAluInstruction.is_predicated := false;
  ParsedAluInstruction.predicate_condition := false;
  ParsedAluInstruction.vector_and_constant_result := {|
    InstructionResult.storage_target := InstructionStorageTarget.kExportAddress;
    InstructionResult.storage_index := 0;
    InstructionResult.storage_addressing_mode :=
      InstructionStorageAddressingMode.kStatic;
    InstructionResult.is_clamped := false;
    InstructionResult.original_write_mask := 15;
    InstructionResult.components := swizzle
  |};
  ParsedAluInstruction.scalar_result := InstructionResult.default;
  ParsedAluInstruction.vector_operand_count := 3;
  ParsedAluInstruction.vector_operands :=
    [# InstructionOperand.default; InstructionOperand.default;
       FieldChange.set_operand (FieldChange.o_storage_index constant)
         (FieldChange.set_operand
            (FieldChange.o_storage_source
               InstructionStorageSource.kConstantFloat)
            InstructionOperand.default)];
  ParsedAluInstruction.scalar_operand_count := 0;
  ParsedAluInstruction.scalar_operands :=
    [# InstructionOperand.default; InstructionOperand.default]
|}.

(** ** struct Shader::ConstantRegisterMap *)

(** Modelled from the spec: [xe::bit_count] is declared in
    xenia/base/math.h, which is not among the sources; the spec asks for
    an exact bit population count.  The count of the one bits of the
    binary writing of a [uint64_t]. *)
Fixpoint popcount_positive (p : positive) : Z :=
  match p with
  | xH => 1
  | xO q => popcount_positive q
  | xI q => 1 + popcount_positive q
  end.

Definition bit_count (v : Z) : Z :=
  match v with
  | Zpos p => popcount_positive p
  | _ => 0
  end.

Module ConstantRegisterMap.
Record t : Set := Build {
  float_bitmap : vec Z (256 / 64);
  loop_bitmap : Z;
  bool_bitmap : vec Z (256 / 32);
  float_count : Z;
  float_dynamic_addressing : bool
}.

(** One iteration of the loop that sums the population counts of the
    blocks below [block_index]; [offset] is a [uint32_t]. *)
Definition offset_step (this : t) (i : Z) (offset : Z) : option Z :=
  block ← at_index (float_bitmap this) i;
  Some (uint32 (offset + bit_count block)).

Definition GetPackedFloatConstantIndex (this : t) (float_constant : Z)
    : option Z :=
  if 256 <=? float_constant then Some UINT32_MAX
  else if float_dynamic_addressing this then Some float_constant
  else
    let block_index := float_constant / 64 in
    let bit_index := float_constant mod 64 in
    block ← at_index (float_bitmap this) block_index;
    if Z.land block (uint64 (Z.shiftl 1 bit_index)) =? 0 then Some UINT32_MAX
    else
      offset ← for_upto block_index (offset_step this) 0;
      Some (uint32 (offset
                    + bit_count (Z.land block
                                   (uint64 (uint64 (Z.shiftl 1 bit_index) - 1))))).

(** Every block of the float bitmap holds a [uint64_t]. *)
Definition well_formed (this : t) : Prop :=
  Forall (λ block, 0 ≤ block < 2 ^ 64) (vec_to_list (float_bitmap this)).

(** Bit [c] of the 256-bit usage bitmap: bit [c mod 64] of block
    [c / 64]. *)
Definition float_bit (this : t) (c : Z) : bool :=
  match at_index (float_bitmap this) (c / 64) with
  | Some block => Z.testbit block (c mod 64)
  | None => false
  end.
End ConstantRegisterMap.

(** The number of indices [0 ≤ j < n] at which [P] holds. *)
Fixpoint count_below (P : Z → bool) (n : nat) : Z :=
  match n with
  | O => 0
  | S k => count_below P k + Z.b2z (P (Z.of_nat k))
  end.

(** The number of set bits of the usage bitmap at indices below [c], and
    the number of all its set bits. *)
Definition set_bits_below (m : ConstantRegisterMap.t) (c : Z) : Z :=
  count_below (ConstantRegisterMap.float_bit m) (Z.to_nat c).

Definition popcount (m : ConstantRegisterMap.t) : Z := set_bits_below m 256.

(** The map of the end-to-end scenario: bits 3, 5 and 130 set. *)
Definition scenario_map : ConstantRegisterMap.t := {|
  ConstantRegisterMap.float_bitmap := [# 40; 0; 4; 0];
  ConstantRegisterMap.loop_bitmap := 0;
  ConstantRegisterMap.bool_bitmap := [# 0; 0; 0; 0; 0; 0; 0; 0];
  ConstantRegisterMap.float_count := 3;
  ConstantRegisterMap.float_dynamic_addressing := false
|}.

(** A map of a shader that indexes its float constants dynamically: every
    bit of the float bitmap set, as the field's comment asks. *)
Definition dynamic_map : ConstantRegisterMap.t := {|
  ConstantRegisterMap.float_bitmap :=
    [# 2 ^ 64 - 1; 2 ^ 64 - 1; 2 ^ 64 - 1; 2 ^ 64 - 1];
  ConstantRegisterMap.loop_bitmap := 0;
  ConstantRegisterMap.bool_bitmap := [# 0; 0; 0; 0; 0; 0; 0; 0];
  ConstantRegisterMap.float_count := 256;
  ConstantRegisterMap.float_dynamic_addressing := true
|}.


(** Two operands name the same storage: the test both comparison
    functions of [InstructionOperand] start with. *)
Definition same_storage (a b : InstructionOperand.t) : Prop :=
  InstructionOperand.storage_source a = InstructionOperand.storage_source b
  ∧ InstructionOperand.storage_index a = InstructionOperand.storage_index b
  ∧ InstructionOperand.storage_addressing_mode a
    = InstructionOperand.storage_addressing_mode b.

(** * Properties *)

(** ** Arrays and loops *)

Lemma at_index_nth {A : Type} {n : nat} (a : vec A n) (k : nat) :
  at_index a (Z.of_nat k) = vec_to_list a !! k.
Proof.
  unfold at_index. rewrite bool_decide_eq_true_2 by lia.
  by rewrite Nat2Z.id.
Qed.

Lemma at_index_is_Some {A : Type} {n : nat} (a : vec A n) (i : Z) :
  is_Some (at_index a i) ↔ 0 ≤ i < Z.of_nat n.
Proof.
  unfold at_index. case_bool_decide as Hi.
  - rewrite lookup_lt_is_Some, length_vec_to_list. lia.
  - split; [intros [x Hx]; discriminate | lia].
Qed.

Lemma at_index_lookup_total {A : Type} {n : nat} (a : vec A n) (k : fin n) :
  at_index a (Z.of_nat (fin_to_nat k)) = Some (a !!! k).
Proof. rewrite at_index_nth. apply vlookup_lookup. reflexivity. Qed.

(** The four indices a loop [for (i = 0; i < 4; ++i)] visits. *)
Lemma lane_cases (i : Z) : 0 ≤ i < 4 → i = 0 ∨ i = 1 ∨ i = 2 ∨ i = 3.
Proof. lia. Qed.

Lemma for_upto_4 {S : Type} (body : Z → S → option S) (s : S) :
  for_upto 4 body s
  = s1 ← body 0 s; s2 ← body 1 s1; s3 ← body 2 s2; body 3 s3.
Proof.
  unfold for_upto. change (Z.to_nat 4) with 4%nat. cbn [for_range].
  change (0 + 1 + 1 + 1) with 3. change (0 + 1 + 1) with 2.
  change (0 + 1) with 1.
  destruct (body 0 s) as [s1|]; [|reflexivity].
  destruct (body 1 s1) as [s2|] eqn:E1; cbn; rewrite E1; [|reflexivity].
  destruct (body 2 s2) as [s3|] eqn:E2; cbn; rewrite E2; [|reflexivity].
  destruct (body 3 s3) eqn:E3; cbn; rewrite E3; reflexivity.
Qed.

(** ** InstructionResult *)

Lemma land_low_mask_bounds (m n : Z) :
  0 ≤ n → 0 ≤ Z.land m (Z.ones n) ≤ Z.ones n.
Proof.
  intros Hn. rewrite Z.land_ones, Z.ones_equiv by done.
  pose proof (Z.mod_pos_bound m (2 ^ n)) as Hb.
  assert (0 < 2 ^ n) by (apply Z.pow_pos_nonneg; lia). lia.
Qed.

Lemma target_mask_is_ones (target : InstructionStorageTarget.t) :
  ∃ n, 0 ≤ n ≤ 4
       ∧ GetInstructionStorageTargetUsedComponents target = Z.ones n.
Proof.
  destruct target;
    first [ by exists 0 | by exists 1 | by exists 3 | by exists 4 ].
Qed.

Lemma used_write_mask_bounds (r : InstructionResult.t) :
  0 ≤ InstructionResult.GetUsedWriteMask r
  ≤ GetInstructionStorageTargetUsedComponents
      (InstructionResult.storage_target r).
Proof.
  unfold InstructionResult.GetUsedWriteMask.
  destruct (target_mask_is_ones (InstructionResult.storage_target r))
    as (n & Hn & ->).
  apply land_low_mask_bounds. lia.
Qed.

(** C8: [GetUsedWriteMask] is the original write mask ANDed with the fixed
    component mask of the storage target, hence a subset of that mask (as a
    mask, bit by bit, and as a number); for the depth target it is 0 or
    0b0001, for the point-size/edge-flag/kill-vertex target at most 0b0111,
    and for the none target it is 0. *)
Theorem GetUsedWriteMask_within_target_mask (r : InstructionResult.t) :
  let fixed :=
    GetInstructionStorageTargetUsedComponents
      (InstructionResult.storage_target r) in
  let used := InstructionResult.GetUsedWriteMask r in
  used = Z.land (InstructionResult.original_write_mask r) fixed
  ∧ Z.land used fixed = used
  ∧ (∀ k, Z.testbit used k = true → Z.testbit fixed k = true)
  ∧ 0 ≤ used ≤ fixed
  ∧ (InstructionResult.storage_target r = InstructionStorageTarget.kDepth
     → used = 0 ∨ used = 1)
  ∧ (InstructionResult.storage_target r
     = InstructionStorageTarget.kPointSizeEdgeFlagKillVertex
     → 0 ≤ used ≤ 7)
  ∧ (InstructionResult.storage_target r = InstructionStorageTarget.kNone
     → used = 0).
Proof.
  intros fixed used.
  assert (Hbounds : 0 ≤ used ≤ fixed) by apply used_write_mask_bounds.
  split; [reflexivity|]. split.
  { subst used. unfold InstructionResult.GetUsedWriteMask. fold fixed.
    by rewrite <- Z.land_assoc, Z.land_diag. }
  split.
  { intros k Hk. subst used. unfold InstructionResult.GetUsedWriteMask in Hk.
    rewrite Z.land_spec in Hk. by apply andb_true_iff in Hk as [_ Hk]. }
  split; [done|].
  subst fixed. split; [|split]; intros Htarget; rewrite Htarget in Hbounds;
    simpl in Hbounds; lia.
Qed.

(** C10: a result whose storage target is the none, the depth or the
    point-size/edge-flag/kill-vertex target (the targets whose fixed
    component mask is not all four components) is never in standard
    swizzle, whatever its original write mask and its components are. *)
Theorem IsStandardSwizzle_false_on_narrow_target (r : InstructionResult.t) :
  InstructionResult.storage_target r = InstructionStorageTarget.kNone
  ∨ InstructionResult.storage_target r = InstructionStorageTarget.kDepth
  ∨ InstructionResult.storage_target r
    = InstructionStorageTarget.kPointSizeEdgeFlagKillVertex →
  GetInstructionStorageTargetUsedComponents (InstructionResult.storage_target r)
  < 15
  ∧ InstructionResult.IsStandardSwizzle r = false.
Proof.
  intros Htarget.
  pose proof (used_write_mask_bounds r) as Hbounds.
  assert (Hnarrow :
    GetInstructionStorageTargetUsedComponents
      (InstructionResult.storage_target r) < 15).
  { destruct Htarget as [-> | [-> | ->]]; simpl; lia. }
  split; [done|].
  unfold InstructionResult.IsStandardSwizzle.
  replace (InstructionResult.GetUsedWriteMask r =? 15) with false; [done|].
  symmetry. apply Z.eqb_neq. lia.
Qed.

(** A 4-bit mask with its four bits set is [0b1111]. *)
Lemma low_four_bits_set (m : Z) :
  0 ≤ m < 16 → (∀ i, 0 ≤ i ≤ 3 → Z.testbit m i = true) → m = 15.
Proof.
  intros Hm Hbits.
  pose proof (Hbits 0 ltac:(lia)) as H0.
  pose proof (Hbits 1 ltac:(lia)) as H1.
  pose proof (Hbits 2 ltac:(lia)) as H2.
  pose proof (Hbits 3 ltac:(lia)) as H3.
  clear Hbits.
  assert (m = 0 ∨ m = 1 ∨ m = 2 ∨ m = 3 ∨ m = 4 ∨ m = 5 ∨ m = 6 ∨ m = 7
          ∨ m = 8 ∨ m = 9 ∨ m = 10 ∨ m = 11 ∨ m = 12 ∨ m = 13 ∨ m = 14
          ∨ m = 15) as Hcases by lia.
  repeat (destruct Hcases as [-> | Hcases];
          [vm_compute in H0, H1, H2, H3; congruence |]).
  done.
Qed.

(** ** InstructionOperand *)

Lemma index_in_array4 {A : Type} (a : vec A 4) (m : Z) :
  0 ≤ m ≤ 3 →
  ∃ k : fin 4, Z.of_nat (fin_to_nat k) = m ∧ at_index a m = Some (a !!! k).
Proof.
  intros Hm.
  assert (m = 0 ∨ m = 1 ∨ m = 2 ∨ m = 3) as [-> | [-> | [-> | ->]]] by lia.
  - exists 0%fin. split; [reflexivity|]. apply (at_index_lookup_total a 0%fin).
  - exists 1%fin. split; [reflexivity|]. apply (at_index_lookup_total a 1%fin).
  - exists 2%fin. split; [reflexivity|]. apply (at_index_lookup_total a 2%fin).
  - exists 3%fin. split; [reflexivity|]. apply (at_index_lookup_total a 3%fin).
Qed.

Lemma uint32_nonneg (z : Z) : 0 ≤ uint32 z.
Proof. unfold uint32. apply Z.mod_pos_bound. lia. Qed.

Lemma uint32_small (z : Z) : 0 ≤ z < 2 ^ 32 → uint32 z = z.
Proof. intros Hz. unfold uint32. by apply Z.mod_small. Qed.

(** For a lane index of the range 0..3 the access of [GetComponent] stays
    inside [components], whatever [component_count] holds. *)
Lemma GetComponent_lane (o : InstructionOperand.t) (i : Z) :
  0 ≤ i ≤ 3 →
  ∃ k : fin 4,
    InstructionOperand.GetComponent o i
    = Some (InstructionOperand.components o !!! k).
Proof.
  intros Hi. unfold InstructionOperand.GetComponent.
  pose proof (uint32_nonneg (InstructionOperand.component_count o - 1)).
  destruct (index_in_array4 (InstructionOperand.components o)
              (Z.min i (uint32 (InstructionOperand.component_count o - 1))))
    as (k & _ & Hk); [lia|].
  by exists k.
Qed.

(** C7: for an operand with [component_count = n], [1 ≤ n ≤ 4], and a
    lane [i] of 0..3, [GetComponent(i)] is [components[min(i, n-1)]]: the
    access is inside the array and below the declared count; and for every
    [i ≥ n-1], [GetComponent(i) = GetComponent(n-1)]: the rightmost declared
    component is replicated. *)
Theorem GetComponent_replicates_rightmost (o : InstructionOperand.t) :
  let n := InstructionOperand.component_count o in
  1 ≤ n ≤ 4 →
  (∀ i, 0 ≤ i ≤ 3 →
     ∃ k : fin 4,
       Z.of_nat (fin_to_nat k) = Z.min i (n - 1)
       ∧ Z.of_nat (fin_to_nat k) < n
       ∧ InstructionOperand.GetComponent o i
         = Some (InstructionOperand.components o !!! k))
  ∧ (∀ i, n - 1 ≤ i →
       InstructionOperand.GetComponent o i
       = InstructionOperand.GetComponent o (n - 1)).
Proof.
  intros n Hn.
  assert (Hwrap : uint32 (n - 1) = n - 1) by (apply uint32_small; lia).
  split.
  - intros i Hi. unfold InstructionOperand.GetComponent. fold n.
    rewrite Hwrap.
    destruct (index_in_array4 (InstructionOperand.components o)
                (Z.min i (n - 1))) as (k & Hk & Hlookup); [lia|].
    exists k. split; [done|]. split; [lia|done].
  - intros i Hi. unfold InstructionOperand.GetComponent. fold n.
    rewrite Hwrap. f_equal. lia.
Qed.

Lemma GetComponent_replicates_rightmost_witness :
  let o := FieldChange.set_operand (FieldChange.o_component_count 2)
             InstructionOperand.default in
  InstructionOperand.GetComponent o 3 = InstructionOperand.GetComponent o 1.
Proof.
  intros o.
  apply (proj2 (GetComponent_replicates_rightmost o ltac:(simpl; lia)) 3).
  simpl. lia.
Defined.

(** The loop of [GetAbsoluteIdenticalComponents] ends, and bit [i] of its
    result tells whether lane [i] agrees. *)
Lemma identical_components_loop (a b : InstructionOperand.t) :
  ∃ m, for_upto 4 (InstructionOperand.identical_components_step a b) 0 = Some m
       ∧ 0 ≤ m < 16
       ∧ ∀ i, 0 ≤ i < 4 →
           (Z.testbit m i = true
            ↔ InstructionOperand.GetComponent a i
              = InstructionOperand.GetComponent b i).
Proof.
  destruct (GetComponent_lane a 0) as [ka0 Ha0]; [lia|].
  destruct (GetComponent_lane a 1) as [ka1 Ha1]; [lia|].
  destruct (GetComponent_lane a 2) as [ka2 Ha2]; [lia|].
  destruct (GetComponent_lane a 3) as [ka3 Ha3]; [lia|].
  destruct (GetComponent_lane b 0) as [kb0 Hb0]; [lia|].
  destruct (GetComponent_lane b 1) as [kb1 Hb1]; [lia|].
  destruct (GetComponent_lane b 2) as [kb2 Hb2]; [lia|].
  destruct (GetComponent_lane b 3) as [kb3 Hb3]; [lia|].
  rewrite for_upto_4. unfold InstructionOperand.identical_components_step.
  rewrite Ha0, Ha1, Ha2, Ha3, Hb0, Hb1, Hb2, Hb3. cbn [mbind option_bind].
  eexists. split; [reflexivity|].
  assert (Hlane : ∀ x y : SwizzleSource.t,
            Some x = Some y ↔ bool_decide (x = y) = true).
  { intros x y. rewrite bool_decide_eq_true. split; congruence. }
  split.
  - destruct (bool_decide _), (bool_decide _), (bool_decide _),
      (bool_decide _); vm_compute; split; congruence.
  - intros i Hi.
    destruct (lane_cases i Hi) as [-> | [-> | [-> | ->]]];
      rewrite ?Ha0, ?Ha1, ?Ha2, ?Ha3, ?Hb0, ?Hb1, ?Hb2, ?Hb3, Hlane;
      destruct (bool_decide _), (bool_decide _), (bool_decide _),
        (bool_decide _); vm_compute; split; congruence.
Qed.

Lemma standard_swizzle_components (o : InstructionOperand.t) :
  InstructionOperand.IsStandardSwizzle o = true ↔
  InstructionOperand.component_count o = 4
  ∧ InstructionOperand.components o = xyzw.
Proof.
  unfold InstructionOperand.IsStandardSwizzle.
  destruct o as [src ix am ng ab cc cs]; simpl.
  destruct (Z.eqb_spec cc 4) as [-> | Hcc].
  - inv_vec cs; intros c0 c1 c2 c3. simpl.
    rewrite !andb_true_iff, !bool_decide_eq_true. unfold xyzw.
    split.
    + intros [[[-> ->] ->] ->]. done.
    + intros [_ Heq]. by inversion Heq.
  - split; [done | intros [? _]; done].
Qed.

(** C9: two operands with the same storage identity and both in standard
    swizzle that differ in [is_negated] (and not in [is_absolute_value])
    give [GetIdenticalComponents = 0] and [GetAbsoluteIdenticalComponents =
    0b1111].  In general: both functions return 0 when the storage identity
    differs; [GetIdenticalComponents] returns 0 when a negate or
    absolute-value flag differs; otherwise both return the mask, below 16,
    whose bit [i] (for [i] in 0..3) is set exactly when [GetComponent(i)]
    agrees on the two operands. *)
Theorem identical_components_lane_by_lane (a b : InstructionOperand.t) :
  let same_storage :=
    InstructionOperand.storage_source a = InstructionOperand.storage_source b
    ∧ InstructionOperand.storage_index a = InstructionOperand.storage_index b
    ∧ InstructionOperand.storage_addressing_mode a
      = InstructionOperand.storage_addressing_mode b in
  let same_flags :=
    InstructionOperand.is_negated a = InstructionOperand.is_negated b
    ∧ InstructionOperand.is_absolute_value a
      = InstructionOperand.is_absolute_value b in
  (same_storage →
   InstructionOperand.IsStandardSwizzle a = true →
   InstructionOperand.IsStandardSwizzle b = true →
   InstructionOperand.is_negated a ≠ InstructionOperand.is_negated b →
   InstructionOperand.is_absolute_value a
   = InstructionOperand.is_absolute_value b →
   InstructionOperand.GetIdenticalComponents a b = Some 0
   ∧ InstructionOperand.GetAbsoluteIdenticalComponents a b = Some 15)
  ∧ (¬ same_storage →
     InstructionOperand.GetAbsoluteIdenticalComponents a b = Some 0
     ∧ InstructionOperand.GetIdenticalComponents a b = Some 0)
  ∧ (¬ same_flags → InstructionOperand.GetIdenticalComponents a b = Some 0)
  ∧ (same_storage →
     ∃ m, InstructionOperand.GetAbsoluteIdenticalComponents a b = Some m
          ∧ (same_flags →
             InstructionOperand.GetIdenticalComponents a b = Some m)
          ∧ 0 ≤ m < 16
          ∧ ∀ i, 0 ≤ i < 4 →
              (Z.testbit m i = true
               ↔ InstructionOperand.GetComponent a i
                 = InstructionOperand.GetComponent b i)).
Proof.
  intros same_storage same_flags.
  assert (Hguard :
    bool_decide (InstructionOperand.storage_source a
                 ≠ InstructionOperand.storage_source b)
    || bool_decide (InstructionOperand.storage_index a
                    ≠ InstructionOperand.storage_index b)
    || bool_decide (InstructionOperand.storage_addressing_mode a
                    ≠ InstructionOperand.storage_addressing_mode b) = false
    ↔ same_storage).
  { subst same_storage. rewrite !orb_false_iff, !bool_decide_eq_false.
    split.
    - intros [[H1 H2] H3]. repeat split.
      + by destruct (decide (InstructionOperand.storage_source a
                             = InstructionOperand.storage_source b)).
      + by destruct (decide (InstructionOperand.storage_index a
                             = InstructionOperand.storage_index b)).
      + by destruct (decide (InstructionOperand.storage_addressing_mode a
                             = InstructionOperand.storage_addressing_mode b)).
    - intros (-> & -> & ->). repeat split; by intros []. }
  assert (Hflags :
    bool_decide (InstructionOperand.is_negated a
                 ≠ InstructionOperand.is_negated b)
    || bool_decide (InstructionOperand.is_absolute_value a
                    ≠ InstructionOperand.is_absolute_value b) = false
    ↔ same_flags).
  { subst same_flags. rewrite orb_false_iff, !bool_decide_eq_false.
    split.
    - intros [H1 H2]. split.
      + by destruct (decide (InstructionOperand.is_negated a
                             = InstructionOperand.is_negated b)).
      + by destruct (decide (InstructionOperand.is_absolute_value a
                             = InstructionOperand.is_absolute_value b)).
    - intros (-> & ->). split; by intros []. }
  assert (Hdiff : ¬ same_storage →
            InstructionOperand.GetAbsoluteIdenticalComponents a b = Some 0).
  { intros Hne. unfold InstructionOperand.GetAbsoluteIdenticalComponents.
    destruct (_ || _ || _) eqn:Eg in |- *; [done|]. by apply Hguard in Eg. }
  assert (Hneq : ¬ same_flags →
            InstructionOperand.GetIdenticalComponents a b = Some 0).
  { intros Hne. unfold InstructionOperand.GetIdenticalComponents.
    destruct (_ || _) eqn:Ef in |- *; [done|]. by apply Hflags in Ef. }
  assert (Hloop : same_storage →
    ∃ m, InstructionOperand.GetAbsoluteIdenticalComponents a b = Some m
         ∧ (same_flags →
            InstructionOperand.GetIdenticalComponents a b = Some m)
         ∧ 0 ≤ m < 16
         ∧ ∀ i, 0 ≤ i < 4 →
             (Z.testbit m i = true
              ↔ InstructionOperand.GetComponent a i
                = InstructionOperand.GetComponent b i)).
  { intros Hsame. apply Hguard in Hsame.
    destruct (identical_components_loop a b) as (m & Hm & Hrange & Hbits).
    assert (Habs : InstructionOperand.GetAbsoluteIdenticalComponents a b
                   = Some m).
    { unfold InstructionOperand.GetAbsoluteIdenticalComponents.
      by rewrite Hsame. }
    exists m. split; [done|]. split; [|done].
    intros Hf. apply Hflags in Hf.
    unfold InstructionOperand.GetIdenticalComponents. by rewrite Hf. }
  split; [|split; [|split]]; [| |done|done].
  - intros Hsame Hsa Hsb Hneg Habs. split.
    + apply Hneq. by intros [? _].
    + destruct (Hloop Hsame) as (m & -> & _ & Hrange & Hbits). f_equal.
      apply standard_swizzle_components in Hsa as [Hca Hxa].
      apply standard_swizzle_components in Hsb as [Hcb Hxb].
      assert (Hall : ∀ i, 0 ≤ i < 4 → Z.testbit m i = true).
      { intros i Hi. apply Hbits; [done|].
        unfold InstructionOperand.GetComponent.
        by rewrite Hca, Hcb, Hxa, Hxb. }
      apply low_four_bits_set; [done|]. intros i Hi. apply Hall. lia.
  - intros Hne. split; [by apply Hdiff|].
    unfold InstructionOperand.GetIdenticalComponents.
    destruct (_ || _) eqn:Ef in |- *; [done | by apply Hdiff].
Qed.

Lemma identical_components_lane_by_lane_witness :
  let a := InstructionOperand.default in
  let b := FieldChange.set_operand (FieldChange.o_is_negated true)
             InstructionOperand.default in
  InstructionOperand.GetIdenticalComponents a b = Some 0
  ∧ InstructionOperand.GetAbsoluteIdenticalComponents a b = Some 15.
Proof.
  intros a b.
  apply (proj1 (identical_components_lane_by_lane a b)).
  - repeat split.
  - reflexivity.
  - reflexivity.
  - simpl. discriminate.
  - reflexivity.
Defined.

Lemma GetUsedWriteMask_within_target_mask_witness :
  let r := FieldChange.set_result (FieldChange.r_original_write_mask 15)
             (FieldChange.set_result
                (FieldChange.r_storage_target InstructionStorageTarget.kDepth)
                InstructionResult.default) in
  InstructionResult.GetUsedWriteMask r = 0
  ∨ InstructionResult.GetUsedWriteMask r = 1.
Proof.
  intros r.
  apply (GetUsedWriteMask_within_target_mask r). reflexivity.
Defined.

Lemma IsStandardSwizzle_false_on_narrow_target_witness :
  let r := FieldChange.set_result (FieldChange.r_original_write_mask 15)
             (FieldChange.set_result
                (FieldChange.r_storage_target
                   InstructionStorageTarget.kPointSizeEdgeFlagKillVertex)
                InstructionResult.default) in
  GetInstructionStorageTargetUsedComponents (InstructionResult.storage_target r)
  < 15
  ∧ InstructionResult.IsStandardSwizzle r = false.
Proof.
  intros r.
  apply (IsStandardSwizzle_false_on_narrow_target r).
  right. right. reflexivity.
Defined.

(** ** ParsedAluInstruction: the disassembly no-op tests *)

Lemma bool_decide_ne_false `{EqDecision A} (x y : A) :
  bool_decide (x ≠ y) = false ↔ x = y.
Proof.
  rewrite bool_decide_eq_false. split.
  - intros Hnn. by destruct (decide (x = y)).
  - intros -> Hne. done.
Qed.

(** The six tests [IsVectorOpDefaultNop] makes on [vector_operands[0]] and
    again on [vector_operands[1]] all fail exactly on a default operand. *)
Lemma operand_tests_false (o : InstructionOperand.t) :
  bool_decide (InstructionOperand.storage_source o
               ≠ InstructionStorageSource.kRegister)
  || bool_decide (InstructionOperand.storage_index o ≠ 0)
  || bool_decide (InstructionOperand.storage_addressing_mode o
                  ≠ InstructionStorageAddressingMode.kStatic)
  || InstructionOperand.is_negated o
  || InstructionOperand.is_absolute_value o
  || negb (InstructionOperand.IsStandardSwizzle o) = false
  ↔ is_default_operand o.
Proof.
  unfold is_default_operand.
  rewrite !orb_false_iff, !bool_decide_ne_false, negb_false_iff,
    standard_swizzle_components.
  tauto.
Qed.

Section alu_nop.
Context `{ucode.decls}.
Implicit Types i : ParsedAluInstruction.t.

Lemma IsScalarOpDefaultNop_true i :
  ParsedAluInstruction.IsScalarOpDefaultNop i = true ↔
  let r := ParsedAluInstruction.scalar_result i in
  ParsedAluInstruction.scalar_opcode i = ucode.kRetainPrev
  ∧ InstructionResult.original_write_mask r = 0
  ∧ InstructionResult.is_clamped r = false
  ∧ (InstructionResult.storage_target r = InstructionStorageTarget.kRegister
     → InstructionResult.storage_index r = 0
       ∧ InstructionResult.storage_addressing_mode r
         = InstructionStorageAddressingMode.kStatic).
Proof.
  unfold ParsedAluInstruction.IsScalarOpDefaultNop. cbv zeta.
  destruct (_ || _ || _) eqn:Eg.
  - split; [done|]. intros (Hop & Hmask & Hclamp & _).
    rewrite !orb_true_iff in Eg. rewrite Hmask, Hclamp in Eg.
    destruct Eg as [[Eg | Eg] | Eg]; try done.
    apply bool_decide_eq_true in Eg. done.
  - rewrite !orb_false_iff, bool_decide_ne_false, negb_false_iff,
      Z.eqb_eq in Eg.
    destruct Eg as [[Hop Hmask] Hclamp].
    case_bool_decide as Htarget.
    + destruct (_ || _) eqn:Er.
      * split; [done|]. intros (_ & _ & _ & Hreg).
        destruct (Hreg Htarget) as [Hix Ham].
        rewrite orb_true_iff, !bool_decide_eq_true in Er. tauto.
      * rewrite orb_false_iff, !bool_decide_ne_false in Er. tauto.
    + tauto.
Qed.

Lemma IsVectorOpDefaultNop_true i :
  ParsedAluInstruction.IsVectorOpDefaultNop i = true ↔
  let r := ParsedAluInstruction.vector_and_constant_result i in
  vector_side_default i
  ∧ (InstructionResult.storage_target r = InstructionStorageTarget.kRegister
     → InstructionResult.storage_index r = 0
       ∧ InstructionResult.storage_addressing_mode r
         = InstructionStorageAddressingMode.kStatic)
  ∧ (InstructionResult.storage_target r ≠ InstructionStorageTarget.kRegister
     → ParsedAluInstruction.IsScalarOpDefaultNop i = false).
Proof.
  unfold ParsedAluInstruction.IsVectorOpDefaultNop, vector_side_default.
  cbv zeta.
  pose proof (operand_tests_false
                (ParsedAluInstruction.vector_operands i !!! 0%fin)) as Ho0.
  pose proof (operand_tests_false
                (ParsedAluInstruction.vector_operands i !!! 1%fin)) as Ho1.
  rewrite !orb_false_iff in Ho0, Ho1.
  match goal with |- (if ?guard then _ else _) = _ ↔ _ =>
    destruct guard eqn:Eg in |- * end.
  - split; [done|]. intros ((Hop & Hmask & Hclamp & Hd0 & Hd1) & _).
    apply Ho0 in Hd0. apply Ho1 in Hd1.
    rewrite <- not_false_iff_true in Eg. destruct Eg.
    rewrite !orb_false_iff, bool_decide_ne_false, negb_false_iff, Z.eqb_eq.
    tauto.
  - rewrite !orb_false_iff, bool_decide_ne_false, negb_false_iff, Z.eqb_eq
      in Eg.
    assert (Hd0 : is_default_operand
                    (ParsedAluInstruction.vector_operands i !!! 0%fin))
      by (apply Ho0; tauto).
    assert (Hd1 : is_default_operand
                    (ParsedAluInstruction.vector_operands i !!! 1%fin))
      by (apply Ho1; tauto).
    destruct Eg as [[[[[[[[[[[[[[Hop Hmask] Hclamp] _] _] _] _] _] _] _] _] _]
                      _] _] _].
    clear Ho0 Ho1.
    case_bool_decide as Htarget.
    + destruct (_ || _) eqn:Er.
      * split; [done|]. intros (_ & Hreg & _).
        destruct (Hreg Htarget) as [Hix Ham].
        rewrite orb_true_iff, !bool_decide_eq_true in Er. tauto.
      * rewrite orb_false_iff, !bool_decide_ne_false in Er. tauto.
    + destruct (ParsedAluInstruction.IsScalarOpDefaultNop i) eqn:Es.
      * split; [done|]. intros (_ & _ & Hexp). by specialize (Hexp Htarget).
      * tauto.
Qed.

Lemma IsVectorOpDefaultNop_against_export i :
  InstructionResult.storage_target
    (ParsedAluInstruction.vector_and_constant_result i)
  ≠ InstructionStorageTarget.kRegister →
  vector_side_default i →
  ParsedAluInstruction.IsVectorOpDefaultNop i
  = negb (ParsedAluInstruction.IsScalarOpDefaultNop i).
Proof.
  intros Htarget Hdefault.
  destruct (ParsedAluInstruction.IsScalarOpDefaultNop i) eqn:Es; simpl.
  - destruct (ParsedAluInstruction.IsVectorOpDefaultNop i) eqn:Ev; [|done].
    apply IsVectorOpDefaultNop_true in Ev as (_ & _ & Hexp).
    specialize (Hexp Htarget). congruence.
  - apply IsVectorOpDefaultNop_true. cbv zeta. tauto.
Qed.

(** C4: when the vector result does not target a plain register,
    [IsVectorOpDefaultNop] is true only if [IsScalarOpDefaultNop] is false;
    so with a scalar operation that is a default no-op, the vector
    operation against an export is kept. *)
Theorem vector_nop_on_export_needs_scalar_op i :
  InstructionResult.storage_target
    (ParsedAluInstruction.vector_and_constant_result i)
  ≠ InstructionStorageTarget.kRegister →
  (ParsedAluInstruction.IsVectorOpDefaultNop i = true
   → ParsedAluInstruction.IsScalarOpDefaultNop i = false)
  ∧ (ParsedAluInstruction.IsScalarOpDefaultNop i = true
     → ParsedAluInstruction.IsVectorOpDefaultNop i = false)
  ∧ (vector_side_default i →
     ParsedAluInstruction.IsVectorOpDefaultNop i
     = negb (ParsedAluInstruction.IsScalarOpDefaultNop i)).
Proof.
  intros Htarget.
  assert (Hkeep : ParsedAluInstruction.IsVectorOpDefaultNop i = true
                  → ParsedAluInstruction.IsScalarOpDefaultNop i = false).
  { intros Hv. apply IsVectorOpDefaultNop_true in Hv as (_ & _ & Hexp).
    by apply Hexp. }
  split; [done|]. split.
  - intros Hs. destruct (ParsedAluInstruction.IsVectorOpDefaultNop i); [|done].
    specialize (Hkeep eq_refl). congruence.
  - by apply IsVectorOpDefaultNop_against_export.
Qed.

(** C5: [IsNop] is true exactly when the scalar opcode is [kRetainPrev],
    the used write masks of the scalar result and of the vector-and-constant
    result are empty, and the vector opcode has no side effects; hence a
    no-op has both used write masks empty, and a nonzero used write mask on
    either result means not a no-op. *)
Theorem IsNop_characterisation i :
  (ParsedAluInstruction.IsNop i = true ↔
   ParsedAluInstruction.scalar_opcode i = ucode.kRetainPrev
   ∧ InstructionResult.GetUsedWriteMask (ParsedAluInstruction.scalar_result i)
     = 0
   ∧ InstructionResult.GetUsedWriteMask
       (ParsedAluInstruction.vector_and_constant_result i) = 0
   ∧ ucode.AluVectorOpHasSideEffects (ParsedAluInstruction.vector_opcode i)
     = false)
  ∧ (ParsedAluInstruction.IsNop i = true →
     InstructionResult.GetUsedWriteMask
       (ParsedAluInstruction.vector_and_constant_result i) = 0
     ∧ InstructionResult.GetUsedWriteMask (ParsedAluInstruction.scalar_result i)
       = 0)
  ∧ (InstructionResult.GetUsedWriteMask
       (ParsedAluInstruction.vector_and_constant_result i) ≠ 0
     ∨ InstructionResult.GetUsedWriteMask (ParsedAluInstruction.scalar_result i)
       ≠ 0 →
     ParsedAluInstruction.IsNop i = false).
Proof.
  assert (Hiff : ParsedAluInstruction.IsNop i = true ↔
    ParsedAluInstruction.scalar_opcode i = ucode.kRetainPrev
    ∧ InstructionResult.GetUsedWriteMask (ParsedAluInstruction.scalar_result i)
      = 0
    ∧ InstructionResult.GetUsedWriteMask
        (ParsedAluInstruction.vector_and_constant_result i) = 0
    ∧ ucode.AluVectorOpHasSideEffects (ParsedAluInstruction.vector_opcode i)
      = false).
  { unfold ParsedAluInstruction.IsNop.
    rewrite !andb_true_iff, bool_decide_eq_true, !Z.eqb_eq, negb_true_iff.
    tauto. }
  split; [done|]. split.
  - intros Hnop. apply Hiff in Hnop. tauto.
  - intros Hmask.
    destruct (ParsedAluInstruction.IsNop i) eqn:Enop in |- *; [|done].
    apply Hiff in Enop. tauto.
Qed.

End alu_nop.

(** ** ParsedAluInstruction: one field of the default vector operation changed *)

Lemma default_operand_unique (o o' : InstructionOperand.t) :
  is_default_operand o → is_default_operand o' → o = o'.
Proof.
  unfold is_default_operand. destruct o, o'; simpl.
  intros (-> & -> & -> & -> & -> & -> & ->) (-> & -> & -> & -> & -> & -> & ->).
  reflexivity.
Qed.

Section single_field_change.
Context `{ucode.decls}.
Implicit Types (i : ParsedAluInstruction.t) (f : FieldChange.alu_field).

(** A change of a field the test reads that keeps the test true writes the
    value the field already holds. *)
Lemma read_field_change_kept i f :
  vector_side_default i →
  targets_plain_register i →
  FieldChange.read_by_vector_nop f = true →
  ParsedAluInstruction.IsVectorOpDefaultNop (FieldChange.set_alu f i) = true →
  FieldChange.set_alu f i = i.
Proof.
  destruct i as [vo so vn sn pr pc vr sr vc vs sc ss].
  inv_vec vs; intros o0 o1 o2.
  destruct vr as [tg ix am cl wm cs].
  destruct f as [v| | | | | |g| | |k g| | ]; try discriminate.
  - intros (Hop & _) _ _ Hnop.
    apply IsVectorOpDefaultNop_true in Hnop as ((Hop' & _) & _).
    simpl in *. congruence.
  - intros (_ & Hmask & Hclamp & _) (Htarget & Hindex & Hmode) Hread Hnop.
    apply IsVectorOpDefaultNop_true
      in Hnop as ((_ & Hmask' & Hclamp' & _) & Hregister' & _).
    destruct g; simpl in *; try discriminate; try congruence.
    + destruct (Hregister' Htarget) as [-> _]. congruence.
    + destruct (Hregister' Htarget) as [_ ->]. congruence.
  - inv_fin k; [|intros k; inv_fin k; [|intros k; inv_fin k;
                                          [|intros k; inv_fin k]]].
    + intros (_ & _ & _ & Ho0 & _) _ _ Hnop.
      apply IsVectorOpDefaultNop_true in Hnop as ((_ & _ & _ & Ho0' & _) & _).
      simpl in *. by rewrite (default_operand_unique _ _ Ho0' Ho0).
    + intros (_ & _ & _ & _ & Ho1) _ _ Hnop.
      apply IsVectorOpDefaultNop_true in Hnop as ((_ & _ & _ & _ & Ho1') & _).
      simpl in *. by rewrite (default_operand_unique _ _ Ho1' Ho1).
    + intros _ _ Hread. by apply bool_decide_eq_true in Hread.
Qed.

(** A change of a field the test does not read leaves the test true, as
    long as the result keeps going to the register. *)
Lemma unread_field_change_ignored i f :
  vector_side_default i →
  targets_plain_register i →
  FieldChange.read_by_vector_nop f = false →
  FieldChange.sets_vector_target f = false →
  ParsedAluInstruction.IsVectorOpDefaultNop (FieldChange.set_alu f i) = true.
Proof.
  destruct i as [vo so vn sn pr pc vr sr vc vs sc ss].
  inv_vec vs; intros o0 o1 o2.
  intros Hdefault Hregister Hread Htarget.
  apply IsVectorOpDefaultNop_true.
  unfold vector_side_default, targets_plain_register in *.
  destruct Hregister as (Hreg & Hindex & Hmode).
  destruct f as [v| | | | | |g| | |k g| | ]; simpl in Hread, Htarget;
    try discriminate; simpl in *; try tauto.
  - destruct vr as [tg ix am cl wm cs].
    destruct g; simpl in *; try discriminate; tauto.
  - apply bool_decide_eq_false in Hread.
    assert (k = 2%fin) as -> by (by destruct (decide (k = 2%fin))).
    simpl in *. tauto.
Qed.

Lemma vector_target_change i (target : InstructionStorageTarget.t) :
  vector_side_default i →
  target ≠ InstructionStorageTarget.kRegister →
  ParsedAluInstruction.IsVectorOpDefaultNop
    (FieldChange.set_alu
       (FieldChange.a_vector_and_constant_result
          (FieldChange.r_storage_target target)) i)
  = negb (ParsedAluInstruction.IsScalarOpDefaultNop i).
Proof.
  intros Hdefault Htarget.
  rewrite IsVectorOpDefaultNop_against_export.
  - by destruct i as [vo so vn sn pr pc [tg ix am cl wm cs] sr vc vs sc ss].
  - by destruct i as [vo so vn sn pr pc [tg ix am cl wm cs] sr vc vs sc ss].
  - by destruct i as [vo so vn sn pr pc [tg ix am cl wm cs] sr vc vs sc ss].
Qed.

End single_field_change.

(** C3 (amended): for an instruction whose vector side is fully default
    and whose vector result goes to register 0 with static addressing,
    [IsVectorOpDefaultNop] is true; writing a different value to any single
    field among those the test reads (the vector opcode; the original write
    mask, clamp flag, index and addressing mode of the vector result; any
    field of the first or of the second vector operand) makes it false;
    writing to any other single field except the target of the vector
    result (the result swizzle, the third vector operand, the operand
    counts, the predication, the opcode names, the whole scalar side)
    leaves it true; and sending the vector result to a target other than
    the register makes it the negation of [IsScalarOpDefaultNop]. *)
Theorem default_vector_op_single_field_change `{ucode.decls}
    (i : ParsedAluInstruction.t) :
  vector_side_default i →
  targets_plain_register i →
  ParsedAluInstruction.IsVectorOpDefaultNop i = true
  ∧ (∀ f, FieldChange.read_by_vector_nop f = true →
          FieldChange.alu_differs f i →
          ParsedAluInstruction.IsVectorOpDefaultNop (FieldChange.set_alu f i)
          = false)
  ∧ (∀ f, FieldChange.read_by_vector_nop f = false →
          FieldChange.sets_vector_target f = false →
          ParsedAluInstruction.IsVectorOpDefaultNop (FieldChange.set_alu f i)
          = true)
  ∧ (∀ target, target ≠ InstructionStorageTarget.kRegister →
          ParsedAluInstruction.IsVectorOpDefaultNop
            (FieldChange.set_alu
               (FieldChange.a_vector_and_constant_result
                  (FieldChange.r_storage_target target)) i)
          = negb (ParsedAluInstruction.IsScalarOpDefaultNop i)).
Proof.
  intros Hdefault Hregister. split; [|split; [|split]].
  - apply IsVectorOpDefaultNop_true. cbv zeta.
    destruct Hregister as (Htarget & Hindex & Hmode).
    split; [done|]. split; [done|]. intros Hexport. by destruct Hexport.
  - intros f Hread Hdiffers.
    destruct (ParsedAluInstruction.IsVectorOpDefaultNop (FieldChange.set_alu f i))
      eqn:Enop; [|done].
    destruct Hdiffers. by apply read_field_change_kept.
  - intros f Hread Htarget. by apply unread_field_change_ignored.
  - intros target Htarget. by apply vector_target_change.
Qed.

Lemma default_vector_op_single_field_change_witness :
  let i := omitted_vector_op (H := sample_ucode.instance) in
  ParsedAluInstruction.IsVectorOpDefaultNop i = true
  ∧ ParsedAluInstruction.IsVectorOpDefaultNop
      (FieldChange.set_alu
         (FieldChange.a_vector_and_constant_result
            (FieldChange.r_is_clamped true)) i) = false.
Proof.
  intros i.
  assert (Hdefault : vector_side_default i) by (repeat split).
  assert (Hregister : targets_plain_register i) by (repeat split).
  destruct (default_vector_op_single_field_change i Hdefault Hregister)
    as (Htrue & Hread & _).
  split; [exact Htrue|].
  apply Hread; [reflexivity|]. unfold FieldChange.alu_differs. simpl.
  discriminate.
Defined.

(** C3, as stated, fails: on the default vector operation against
    register 0, writing a different value to the swizzle of the vector
    result, to a field of the third vector operand, to the predication flag
    or to the scalar opcode changes one field and leaves
    [IsVectorOpDefaultNop] true; so does sending the vector result to the
    color export while the scalar operation is not a default no-op. *)
Lemma single_field_change_keeps_vector_nop :
  let i := omitted_vector_op (H := sample_ucode.instance) in
  let unchanged f :=
    FieldChange.alu_differs f i
    ∧ ParsedAluInstruction.IsVectorOpDefaultNop (FieldChange.set_alu f i)
      = true in
  vector_side_default i
  ∧ targets_plain_register i
  ∧ unchanged (FieldChange.a_vector_and_constant_result
                 (FieldChange.r_components 0%fin SwizzleSource.kY))
  ∧ unchanged (FieldChange.a_vector_operands 2%fin
                 (FieldChange.o_is_negated true))
  ∧ unchanged (FieldChange.a_is_predicated true)
  ∧ unchanged (FieldChange.a_scalar_opcode ucode.kRetainPrev)
  ∧ unchanged (FieldChange.a_vector_and_constant_result
                 (FieldChange.r_storage_target InstructionStorageTarget.kColor)).
Proof.
  intros i unchanged. subst unchanged. cbv beta.
  unfold FieldChange.alu_differs.
  split; [repeat split|]. split; [repeat split|].
  repeat split; try reflexivity; simpl; discriminate.
Qed.

(** ** ParsedAluInstruction: the translation no-op and the memexport pattern *)

Lemma IsNop_characterisation_witness :
  let i := export_address_mad (H := sample_ucode.instance) xyzw 5 in
  ParsedAluInstruction.IsNop i = false.
Proof.
  intros i.
  apply (proj2 (proj2 (IsNop_characterisation i))).
  left. simpl. discriminate.
Defined.

Lemma vector_nop_on_export_needs_scalar_op_witness :
  let i := FieldChange.set_alu
             (FieldChange.a_vector_and_constant_result
                (FieldChange.r_storage_target InstructionStorageTarget.kColor))
             (omitted_vector_op (H := sample_ucode.instance)) in
  ParsedAluInstruction.IsVectorOpDefaultNop i = true
  ∧ ParsedAluInstruction.IsScalarOpDefaultNop i = false.
Proof.
  intros i.
  assert (Hexport : InstructionResult.storage_target
                      (ParsedAluInstruction.vector_and_constant_result i)
                    ≠ InstructionStorageTarget.kRegister) by (simpl; discriminate).
  split; [reflexivity|].
  apply (proj1 (vector_nop_on_export_needs_scalar_op i Hexport)).
  reflexivity.
Defined.

(** Every lane of 0..3 is an element of [components]: the loop of
    [GetUsedResultComponents] runs to its end. *)
Lemma GetUsedResultComponents_total (r : InstructionResult.t) :
  is_Some (InstructionResult.GetUsedResultComponents r).
Proof.
  unfold InstructionResult.GetUsedResultComponents. cbv zeta.
  rewrite for_upto_4. unfold InstructionResult.used_result_components_step.
  destruct (index_in_array4 (InstructionResult.components r) 0)
    as (k0 & _ & ->); [lia|].
  destruct (index_in_array4 (InstructionResult.components r) 1)
    as (k1 & _ & ->); [lia|].
  destruct (index_in_array4 (InstructionResult.components r) 2)
    as (k2 & _ & ->); [lia|].
  destruct (index_in_array4 (InstructionResult.components r) 3)
    as (k3 & _ & ->); [lia|].
  cbn [mbind option_bind]. by eexists.
Qed.

(** The loop on every 4-bit mask and every swizzle: all four source
    components are used exactly when all four lanes are written and each of
    x, y, z, w feeds one of them. *)
Lemma used_result_components_cases :
  Forall (λ m, ∀ c0 c1 c2 c3 : SwizzleSource.t,
            for_upto 4 (InstructionResult.used_result_components_step
                          [# c0; c1; c2; c3] m) 0 = Some 15
            ↔ m = 15
              ∧ Forall (λ s, s ∈ [c0; c1; c2; c3])
                  [SwizzleSource.kX; SwizzleSource.kY; SwizzleSource.kZ;
                   SwizzleSource.kW])
    (Z.of_nat <$> seq 0 16).
Proof. apply (bool_decide_unpack _). vm_compute. exact I. Qed.

Lemma GetUsedResultComponents_all_four (r : InstructionResult.t) :
  InstructionResult.GetUsedResultComponents r = Some 15
  ↔ InstructionResult.GetUsedWriteMask r = 15
    ∧ Forall (λ s, s ∈ vec_to_list (InstructionResult.components r))
        [SwizzleSource.kX; SwizzleSource.kY; SwizzleSource.kZ;
         SwizzleSource.kW].
Proof.
  pose proof (used_write_mask_bounds r) as Hbounds.
  assert (Hfixed : GetInstructionStorageTargetUsedComponents
                     (InstructionResult.storage_target r) ≤ 15)
    by (destruct (InstructionResult.storage_target r); simpl; lia).
  unfold InstructionResult.GetUsedResultComponents. cbv zeta.
  generalize dependent (InstructionResult.GetUsedWriteMask r). intros m Hm.
  destruct r as [tg ix am cl wm cs]. simpl in *.
  inv_vec cs; intros c0 c1 c2 c3. simpl.
  pose proof used_result_components_cases as Hcases.
  rewrite Forall_forall in Hcases. apply Hcases.
  apply list_elem_of_fmap. exists (Z.to_nat m). split; [lia|].
  apply elem_of_seq. lia.
Qed.

Section memexport.
Context `{ucode.decls}.
Implicit Types i : ParsedAluInstruction.t.

(** What the [if] of [GetMemExportStreamConstant] tests. *)
Lemma is_stream_constant_mad_spec i :
  ∃ matched : bool,
    ParsedAluInstruction.is_stream_constant_mad i = Some matched
    ∧ (matched = true ↔
       let r := ParsedAluInstruction.vector_and_constant_result i in
       let addend := ParsedAluInstruction.vector_operands i !!! 2%fin in
       InstructionResult.storage_target r
       = InstructionStorageTarget.kExportAddress
       ∧ ParsedAluInstruction.vector_opcode i = ucode.kMad
       ∧ InstructionResult.GetUsedResultComponents r = Some 15
       ∧ InstructionResult.is_clamped r = false
       ∧ InstructionOperand.storage_source addend
         = InstructionStorageSource.kConstantFloat
       ∧ InstructionOperand.storage_addressing_mode addend
         = InstructionStorageAddressingMode.kStatic
       ∧ InstructionOperand.IsStandardSwizzle addend = true
       ∧ InstructionOperand.is_negated addend = false
       ∧ InstructionOperand.is_absolute_value addend = false).
Proof.
  unfold ParsedAluInstruction.is_stream_constant_mad.
  destruct (GetUsedResultComponents_total
              (ParsedAluInstruction.vector_and_constant_result i))
    as [used Hused].
  rewrite Hused. cbn [mbind option_bind]. eexists. split; [reflexivity|].
  cbv zeta.
  rewrite !andb_true_iff, !bool_decide_eq_true, !negb_true_iff, Z.eqb_eq.
  assert (Some used = Some 15 ↔ used = 15) by (split; congruence).
  tauto.
Qed.

(** C6 (amended): [GetMemExportStreamConstant] returns the storage index
    of the third vector operand when the vector result targets the export
    address, the vector opcode is [kMad], [GetUsedResultComponents] of the
    vector result is 0b1111, the result is not clamped, and the third
    vector operand is a statically addressed float constant in standard
    swizzle with no negate or absolute-value modifier; in every other case
    it returns [UINT32_MAX], in particular whenever the vector opcode is
    not [kMad].  [GetUsedResultComponents] is 0b1111 exactly when all four
    lanes are written (the used write mask is 0b1111) and each of x, y, z,
    w is the source of one of them. *)
Theorem GetMemExportStreamConstant_pattern i :
  let r := ParsedAluInstruction.vector_and_constant_result i in
  let addend := ParsedAluInstruction.vector_operands i !!! 2%fin in
  let recognised :=
    InstructionResult.storage_target r = InstructionStorageTarget.kExportAddress
    ∧ ParsedAluInstruction.vector_opcode i = ucode.kMad
    ∧ InstructionResult.GetUsedResultComponents r = Some 15
    ∧ InstructionResult.is_clamped r = false
    ∧ InstructionOperand.storage_source addend
      = InstructionStorageSource.kConstantFloat
    ∧ InstructionOperand.storage_addressing_mode addend
      = InstructionStorageAddressingMode.kStatic
    ∧ InstructionOperand.IsStandardSwizzle addend = true
    ∧ InstructionOperand.is_negated addend = false
    ∧ InstructionOperand.is_absolute_value addend = false in
  (recognised →
   ParsedAluInstruction.GetMemExportStreamConstant i
   = Some (InstructionOperand.storage_index addend))
  ∧ (¬ recognised →
     ParsedAluInstruction.GetMemExportStreamConstant i = Some UINT32_MAX)
  ∧ (ParsedAluInstruction.vector_opcode i ≠ ucode.kMad →
     ParsedAluInstruction.GetMemExportStreamConstant i = Some UINT32_MAX)
  ∧ (InstructionResult.GetUsedResultComponents r = Some 15
     ↔ InstructionResult.GetUsedWriteMask r = 15
       ∧ Forall (λ s, s ∈ vec_to_list (InstructionResult.components r))
           [SwizzleSource.kX; SwizzleSource.kY; SwizzleSource.kZ;
            SwizzleSource.kW]).
Proof.
  intros r addend recognised.
  destruct (is_stream_constant_mad_spec i) as (matched & Hmatched & Hiff).
  cbv zeta in Hiff. fold r addend recognised in Hiff.
  unfold ParsedAluInstruction.GetMemExportStreamConstant.
  rewrite Hmatched. cbn [mbind option_bind]. fold addend.
  assert (Hmiss : ¬ recognised →
            Some (if matched then InstructionOperand.storage_index addend
                  else UINT32_MAX) = Some UINT32_MAX).
  { intros Hnot. destruct matched; [|done]. destruct Hnot. by apply Hiff. }
  split; [|split; [|split]].
  - intros Hrec. apply Hiff in Hrec. by rewrite Hrec.
  - done.
  - intros Hop. apply Hmiss. intros (_ & Hmad & _). done.
  - apply GetUsedResultComponents_all_four.
Qed.

End memexport.

Lemma GetMemExportStreamConstant_pattern_witness :
  ParsedAluInstruction.GetMemExportStreamConstant
    (export_address_mad (H := sample_ucode.instance) xyzw 5) = Some 5.
Proof.
  apply (proj1 (GetMemExportStreamConstant_pattern
                  (export_address_mad (H := sample_ucode.instance) xyzw 5))).
  repeat split.
Defined.

(** C6, as stated, fails: a multiply-add to the export address that
    writes all four lanes, unclamped, with the float constant 5 as its third
    operand (static, standard swizzle, no modifier), but whose result
    swizzle is [xxxx], is answered with [UINT32_MAX], not with 5. *)
Lemma all_lanes_written_not_recognised :
  let i := export_address_mad (H := sample_ucode.instance)
             [# SwizzleSource.kX; SwizzleSource.kX; SwizzleSource.kX;
                SwizzleSource.kX] 5 in
  let r := ParsedAluInstruction.vector_and_constant_result i in
  let addend := ParsedAluInstruction.vector_operands i !!! 2%fin in
  InstructionResult.storage_target r = InstructionStorageTarget.kExportAddress
  ∧ ParsedAluInstruction.vector_opcode i = ucode.kMad
  ∧ InstructionResult.GetUsedWriteMask r = 15
  ∧ InstructionResult.is_clamped r = false
  ∧ InstructionOperand.storage_source addend
    = InstructionStorageSource.kConstantFloat
  ∧ InstructionOperand.storage_addressing_mode addend
    = InstructionStorageAddressingMode.kStatic
  ∧ InstructionOperand.IsStandardSwizzle addend = true
  ∧ InstructionOperand.is_negated addend = false
  ∧ InstructionOperand.is_absolute_value addend = false
  ∧ InstructionOperand.storage_index addend = 5
  ∧ InstructionResult.GetUsedResultComponents r = Some 1
  ∧ ParsedAluInstruction.GetMemExportStreamConstant i = Some UINT32_MAX
  ∧ UINT32_MAX ≠ 5.
Proof.
  intros i r addend. repeat split; try reflexivity.
  intros Heq. vm_compute in Heq. discriminate.
Qed.

(** ** Counting set bits *)

Lemma count_below_ext (P Q : Z → bool) (n : nat) :
  (∀ j, 0 ≤ j < Z.of_nat n → P j = Q j) →
  count_below P n = count_below Q n.
Proof.
  induction n as [|n IH]; intros Hext; [reflexivity|].
  cbn [count_below]. rewrite IH, (Hext (Z.of_nat n)) by (intros; try apply Hext; lia).
  reflexivity.
Qed.

Lemma count_below_bounds (P : Z → bool) (n : nat) :
  0 ≤ count_below P n ≤ Z.of_nat n.
Proof.
  induction n as [|n IH]; cbn [count_below]; [lia|].
  destruct (P (Z.of_nat n)); simpl; lia.
Qed.

Lemma count_below_add (P : Z → bool) (a b : nat) :
  count_below P (a + b)
  = count_below P a + count_below (λ j, P (Z.of_nat a + j)) b.
Proof.
  induction b as [|b IH].
  - rewrite Nat.add_0_r. simpl. lia.
  - rewrite Nat.add_succ_r. cbn [count_below]. rewrite IH.
    rewrite Nat2Z.inj_add. lia.
Qed.

Lemma count_below_head (P : Z → bool) (n : nat) :
  count_below P (S n) = Z.b2z (P 0) + count_below (λ j, P (1 + j)) n.
Proof.
  change (S n) with (1 + n)%nat. rewrite count_below_add. reflexivity.
Qed.

Lemma count_below_mono (P : Z → bool) (a b : nat) :
  (a ≤ b)%nat → count_below P a ≤ count_below P b.
Proof.
  intros Hab. replace b with (a + (b - a))%nat by lia.
  rewrite count_below_add.
  pose proof (count_below_bounds (λ j, P (Z.of_nat a + j)) (b - a)). lia.
Qed.

(** The rank of a set index is below the rank of every larger index. *)
Lemma count_below_strict (P : Z → bool) (a b : nat) :
  (a < b)%nat → P (Z.of_nat a) = true →
  count_below P a < count_below P b.
Proof.
  intros Hab Hset.
  pose proof (count_below_mono P (S a) b ltac:(lia)) as Hmono.
  cbn [count_below] in Hmono. rewrite Hset in Hmono. simpl in Hmono. lia.
Qed.

Lemma count_below_injective (P : Z → bool) (a b : nat) :
  P (Z.of_nat a) = true → P (Z.of_nat b) = true →
  count_below P a = count_below P b → a = b.
Proof.
  intros Ha Hb Heq.
  destruct (lt_eq_lt_dec a b) as [[Hlt | ->] | Hlt]; [|done|].
  - pose proof (count_below_strict P a b Hlt Ha). lia.
  - pose proof (count_below_strict P b a Hlt Hb). lia.
Qed.

(** Every value below the number of set indices is the rank of one. *)
Lemma count_below_surjective (P : Z → bool) (n : nat) (k : Z) :
  0 ≤ k < count_below P n →
  ∃ j, (j < n)%nat ∧ P (Z.of_nat j) = true ∧ count_below P j = k.
Proof.
  induction n as [|n IH]; cbn [count_below]; [lia|].
  intros Hk.
  destruct (decide (k < count_below P n)) as [Hlow | Hhigh].
  - destruct IH as (j & Hj & Hset & Hrank); [lia|].
    exists j. split; [lia|done].
  - destruct (P (Z.of_nat n)) eqn:Hset; simpl in Hk; [|lia].
    exists n. split; [lia|]. split; [done|lia].
Qed.

(** [bit_count] counts the set bits of a value of [n] bits. *)
Lemma bit_count_div2 (v : Z) :
  0 ≤ v → bit_count v = Z.b2z (Z.odd v) + bit_count (Z.div2 v).
Proof.
  intros Hv. destruct v as [|p|p]; [reflexivity| |lia].
  destruct p; simpl; lia.
Qed.

Lemma bit_count_testbits (n : nat) (v : Z) :
  0 ≤ v < 2 ^ Z.of_nat n → bit_count v = count_below (Z.testbit v) n.
Proof.
  revert v. induction n as [|n IH]; intros v Hv.
  - simpl in Hv. by replace v with 0 by lia.
  - rewrite count_below_head, bit_count_div2, Z.bit0_odd by lia.
    f_equal. rewrite Nat2Z.inj_succ, Z.pow_succ_r in Hv by lia.
    rewrite IH.
    + apply count_below_ext. intros j Hj.
      rewrite Z.div2_spec, Z.shiftr_spec by lia. f_equal. lia.
    + rewrite Z.div2_div. split.
      * apply Z.div_pos; lia.
      * apply Z.div_lt_upper_bound; lia.
Qed.

Lemma land_pow2_testbit (b r : Z) :
  0 ≤ r → (Z.land b (2 ^ r) =? 0) = negb (Z.testbit b r).
Proof.
  intros Hr. destruct (Z.testbit b r) eqn:Hbit; simpl.
  - apply Z.eqb_neq. intros Hzero.
    assert (Hr' : Z.testbit (Z.land b (2 ^ r)) r = true)
      by (by rewrite Z.land_spec, Hbit, Z.pow2_bits_true).
    rewrite Hzero, Z.bits_0 in Hr'. discriminate.
  - apply Z.eqb_eq. apply Z.bits_inj'. intros n Hn.
    rewrite Z.land_spec, Z.bits_0, Z.pow2_bits_eqb by done.
    destruct (Z.eqb_spec r n) as [<- | _].
    + by rewrite Hbit.
    + apply andb_false_r.
Qed.

(** ** ConstantRegisterMap: packing the float constants *)

Section packing.
Variable m : ConstantRegisterMap.t.
Hypothesis Hwf : ConstantRegisterMap.well_formed m.

Lemma block_lookup (q : Z) :
  0 ≤ q < 4 →
  ∃ b, at_index (ConstantRegisterMap.float_bitmap m) q = Some b
       ∧ 0 ≤ b < 2 ^ 64.
Proof.
  intros Hq.
  destruct (proj2 (at_index_is_Some (ConstantRegisterMap.float_bitmap m) q))
    as [b Hb]; [simpl; lia|].
  exists b. split; [done|].
  unfold at_index in Hb. rewrite bool_decide_eq_true_2 in Hb by lia.
  unfold ConstantRegisterMap.well_formed in Hwf.
  rewrite Forall_lookup in Hwf. by apply (Hwf _ _ Hb).
Qed.

Lemma float_bit_in_block (q b j : Z) :
  at_index (ConstantRegisterMap.float_bitmap m) q = Some b →
  0 ≤ j < 64 →
  ConstantRegisterMap.float_bit m (64 * q + j) = Z.testbit b j.
Proof.
  intros Hb Hj. unfold ConstantRegisterMap.float_bit.
  replace ((64 * q + j) / 64) with q
    by (apply (Z.div_unique _ _ q j); lia).
  replace ((64 * q + j) mod 64) with j
    by (apply (Z.mod_unique _ _ q j); lia).
  by rewrite Hb.
Qed.

Lemma set_bits_below_bounds (c : Z) :
  0 ≤ c → 0 ≤ set_bits_below m c ≤ c.
Proof.
  intros Hc. unfold set_bits_below.
  pose proof (count_below_bounds (ConstantRegisterMap.float_bit m)
                (Z.to_nat c)). lia.
Qed.

(** The bits below [64 q + r] are the bits below block [q] and the [r]
    lowest bits of block [q]. *)
Lemma set_bits_below_in_block (q b r : Z) :
  at_index (ConstantRegisterMap.float_bitmap m) q = Some b →
  0 ≤ q → 0 ≤ r ≤ 64 →
  set_bits_below m (64 * q + r)
  = set_bits_below m (64 * q) + count_below (Z.testbit b) (Z.to_nat r).
Proof.
  intros Hb Hq Hr. unfold set_bits_below.
  rewrite Z2Nat.inj_add, count_below_add by lia. f_equal.
  apply count_below_ext. intros j Hj.
  rewrite Z2Nat.id by lia. apply float_bit_in_block; [done|lia].
Qed.

(** The loop over the lower blocks: after the blocks [q .. q + n - 1],
    [offset] has grown from the bits below block [q] to the bits below block
    [q + n]. *)
Lemma offset_loop (n : nat) (q : Z) :
  0 ≤ q → q + Z.of_nat n ≤ 4 →
  for_range n q (ConstantRegisterMap.offset_step m) (set_bits_below m (64 * q))
  = Some (set_bits_below m (64 * (q + Z.of_nat n))).
Proof.
  revert q. induction n as [|n IH]; intros q Hq Hn.
  - cbn [for_range]. do 2 f_equal. lia.
  - destruct (block_lookup q) as (b & Hb & Hrange); [lia|].
    assert (Hstep :
      ConstantRegisterMap.offset_step m q (set_bits_below m (64 * q))
      = Some (set_bits_below m (64 * (q + 1)))).
    { unfold ConstantRegisterMap.offset_step. rewrite Hb.
      cbn [mbind option_bind]. f_equal.
      rewrite (bit_count_testbits 64 b) by done.
      replace (64 * (q + 1)) with (64 * q + 64) by lia.
      rewrite (set_bits_below_in_block q b 64) by (done || lia).
      change (Z.to_nat 64) with 64%nat.
      apply uint32_small.
      pose proof (set_bits_below_bounds (64 * q)).
      pose proof (count_below_bounds (Z.testbit b) 64). lia. }
    cbn [for_range]. rewrite Hstep. cbn [mbind option_bind].
    rewrite IH by lia. do 2 f_equal. lia.
Qed.

(** The rank of a set bit is below the number of set bits of every longer
    prefix, two set bits of one rank are one bit, and every value below the
    number of set bits of a prefix is the rank of a set bit of the prefix. *)
Lemma set_bits_below_strict (c n : Z) :
  0 ≤ c < n → ConstantRegisterMap.float_bit m c = true →
  set_bits_below m c < set_bits_below m n.
Proof.
  intros Hc Hset. unfold set_bits_below.
  apply count_below_strict; [lia|]. by rewrite Z2Nat.id by lia.
Qed.

Lemma set_bits_below_injective (c c' : Z) :
  0 ≤ c → 0 ≤ c' →
  ConstantRegisterMap.float_bit m c = true →
  ConstantRegisterMap.float_bit m c' = true →
  set_bits_below m c = set_bits_below m c' → c = c'.
Proof.
  intros Hc Hc' Hset Hset' Heq. unfold set_bits_below in Heq.
  apply count_below_injective in Heq; [lia| |]; by rewrite Z2Nat.id by lia.
Qed.

Lemma set_bits_below_surjective (n k : Z) :
  0 ≤ k < set_bits_below m n →
  ∃ c, 0 ≤ c < n ∧ ConstantRegisterMap.float_bit m c = true
       ∧ set_bits_below m c = k.
Proof.
  intros Hk. unfold set_bits_below in Hk.
  apply count_below_surjective in Hk as (j & Hj & Hset & Heq).
  exists (Z.of_nat j). split; [lia|]. split; [done|].
  unfold set_bits_below. by rewrite Nat2Z.id.
Qed.

Hypothesis Hstatic : ConstantRegisterMap.float_dynamic_addressing m = false.

(** What the function computes without dynamic addressing. *)
Lemma packed_index_static (c : Z) :
  0 ≤ c < 256 →
  ConstantRegisterMap.GetPackedFloatConstantIndex m c
  = Some (if ConstantRegisterMap.float_bit m c
          then set_bits_below m c else UINT32_MAX).
Proof.
  intros Hc. unfold ConstantRegisterMap.GetPackedFloatConstantIndex.
  rewrite (proj2 (Z.leb_gt 256 c)) by lia. rewrite Hstatic. cbv zeta.
  assert (Hq : 0 ≤ c / 64 < 4)
    by (split; [apply Z.div_pos | apply Z.div_lt_upper_bound]; lia).
  assert (Hr : 0 ≤ c mod 64 < 64) by (apply Z.mod_pos_bound; lia).
  destruct (block_lookup (c / 64)) as (b & Hb & Hrange); [done|].
  rewrite Hb. cbn [mbind option_bind].
  unfold ConstantRegisterMap.float_bit. rewrite Hb.
  assert (Hpow : 0 < 2 ^ (c mod 64) < 2 ^ 64).
  { split; [apply Z.pow_pos_nonneg; lia|].
    apply Z.pow_lt_mono_r; lia. }
  rewrite Z.shiftl_1_l.
  assert (Hshift : uint64 (2 ^ (c mod 64)) = 2 ^ (c mod 64))
    by (unfold uint64; apply Z.mod_small; lia).
  rewrite Hshift, land_pow2_testbit by lia.
  destruct (Z.testbit b (c mod 64)) eqn:Hbit; cbn [negb]; [|reflexivity].
  unfold for_upto.
  pose proof (offset_loop (Z.to_nat (c / 64)) 0 ltac:(lia) ltac:(lia)) as Hloop.
  change (64 * 0) with 0 in Hloop.
  change (set_bits_below m 0) with 0 in Hloop.
  rewrite Hloop. cbn [mbind option_bind]. f_equal.
  assert (Hmask : uint64 (2 ^ (c mod 64) - 1) = Z.ones (c mod 64)).
  { rewrite Z.ones_equiv. unfold uint64.
    rewrite (Z.mod_small (2 ^ (c mod 64) - 1)); lia. }
  rewrite Hmask.
  rewrite Z.land_ones by lia.
  rewrite (bit_count_testbits (Z.to_nat (c mod 64)))
    by (rewrite Z2Nat.id by lia; apply Z.mod_pos_bound; lia).
  rewrite (count_below_ext _ (Z.testbit b))
    by (intros j Hj; apply Z.mod_pow2_bits_low; lia).
  rewrite Z.add_0_l, Z2Nat.id by lia.
  rewrite <- (set_bits_below_in_block (c / 64) b (c mod 64)) by (done || lia).
  rewrite <- Z.div_mod by lia.
  apply uint32_small. pose proof (set_bits_below_bounds c). lia.
Qed.

End packing.

Example scenario_packed :
  ConstantRegisterMap.GetPackedFloatConstantIndex scenario_map <$> [3; 5; 130; 4]
  = [Some 0; Some 1; Some 2; Some UINT32_MAX].
Proof. reflexivity. Qed.

Lemma popcount_unfold (m : ConstantRegisterMap.t) :
  popcount m = set_bits_below m 256.
Proof. reflexivity. Qed.

Lemma scenario_map_bits :
  Forall (λ c, ConstantRegisterMap.float_bit scenario_map c = true
               ↔ c = 3 ∨ c = 5 ∨ c = 130)
    (Z.of_nat <$> seq 0 256).
Proof. apply (bool_decide_unpack _). vm_compute. exact I. Qed.

Lemma scenario_map_well_formed : ConstantRegisterMap.well_formed scenario_map.
Proof. apply (bool_decide_unpack _). vm_compute. exact I. Qed.

(** C1: without dynamic addressing, [GetPackedFloatConstantIndex] maps
    every index of 0..255 whose bit is set in the 256-bit float bitmap to
    the number of set bits at the indices below it, and every index of
    0..255 whose bit is unset to [UINT32_MAX]; on the set bits it is
    injective, its values lie in [0, popcount), and every value of
    [0, popcount) is taken: a bijection onto [0, popcount).  On the map with
    exactly the bits 3, 5 and 130 set, the indices 3, 5, 130 are packed to
    0, 1, 2, and 4 is not found. *)
Theorem packed_index_is_rank_of_set_bit :
  (∀ m : ConstantRegisterMap.t,
     ConstantRegisterMap.well_formed m →
     ConstantRegisterMap.float_dynamic_addressing m = false →
     (∀ c, 0 ≤ c < 256 → ConstantRegisterMap.float_bit m c = true →
        ConstantRegisterMap.GetPackedFloatConstantIndex m c
        = Some (set_bits_below m c)
        ∧ 0 ≤ set_bits_below m c < popcount m
        ∧ set_bits_below m c ≠ UINT32_MAX)
     ∧ (∀ c b, 0 ≤ c < 256 →
          at_index (ConstantRegisterMap.float_bitmap m) (c / 64) = Some b →
          set_bits_below m c
          = set_bits_below m (64 * (c / 64))
            + count_below (Z.testbit b) (Z.to_nat (c mod 64)))
     ∧ (∀ c, 0 ≤ c < 256 → ConstantRegisterMap.float_bit m c = false →
          ConstantRegisterMap.GetPackedFloatConstantIndex m c
          = Some UINT32_MAX)
     ∧ (∀ c c', 0 ≤ c < 256 → 0 ≤ c' < 256 →
          ConstantRegisterMap.float_bit m c = true →
          ConstantRegisterMap.float_bit m c' = true →
          ConstantRegisterMap.GetPackedFloatConstantIndex m c
          = ConstantRegisterMap.GetPackedFloatConstantIndex m c' →
          c = c')
     ∧ (∀ k, 0 ≤ k < popcount m →
          ∃ c, 0 ≤ c < 256
               ∧ ConstantRegisterMap.float_bit m c = true
               ∧ ConstantRegisterMap.GetPackedFloatConstantIndex m c = Some k))
  ∧ (ConstantRegisterMap.well_formed scenario_map
     ∧ ConstantRegisterMap.float_dynamic_addressing scenario_map = false
     ∧ (∀ c, 0 ≤ c < 256 →
          (ConstantRegisterMap.float_bit scenario_map c = true
           ↔ c = 3 ∨ c = 5 ∨ c = 130))
     ∧ ConstantRegisterMap.GetPackedFloatConstantIndex scenario_map 3 = Some 0
     ∧ ConstantRegisterMap.GetPackedFloatConstantIndex scenario_map 5 = Some 1
     ∧ ConstantRegisterMap.GetPackedFloatConstantIndex scenario_map 130
       = Some 2
     ∧ ConstantRegisterMap.GetPackedFloatConstantIndex scenario_map 4
       = Some UINT32_MAX).
Proof.
  split.
  - intros m Hwf Hstatic.
    split; [|split; [|split; [|split]]].
    + intros c Hc Hset.
      rewrite (packed_index_static m Hwf Hstatic c Hc), Hset.
      pose proof (set_bits_below_bounds m c ltac:(lia)) as Hbounds.
      split; [done|]. split; [|unfold UINT32_MAX; lia].
      split; [lia|]. rewrite popcount_unfold.
      apply set_bits_below_strict; [lia|done].
    + intros c b Hc Hb.
      rewrite <- (set_bits_below_in_block m (c / 64) b (c mod 64) Hb).
      * by rewrite <- Z.div_mod by lia.
      * apply Z.div_pos; lia.
      * pose proof (Z.mod_pos_bound c 64). lia.
    + intros c Hc Hunset.
      by rewrite (packed_index_static m Hwf Hstatic c Hc), Hunset.
    + intros c c' Hc Hc' Hset Hset'.
      rewrite !(packed_index_static m Hwf Hstatic) by done.
      rewrite Hset, Hset'. intros [= Heq].
      apply (set_bits_below_injective m c c'); (lia || done).
    + intros k Hk. rewrite popcount_unfold in Hk.
      destruct (set_bits_below_surjective m 256 k Hk) as (c & Hc & Hset & Heq).
      exists c. split; [done|]. split; [done|].
      by rewrite (packed_index_static m Hwf Hstatic c Hc), Hset, Heq.
  - split; [apply scenario_map_well_formed|]. split; [reflexivity|].
    split; [|by repeat split].
    intros c Hc. apply (proj1 (Forall_forall _ _) scenario_map_bits).
    apply list_elem_of_fmap. exists (Z.to_nat c). split; [lia|].
    apply elem_of_seq. lia.
Qed.

Lemma packed_index_is_rank_of_set_bit_witness :
  ConstantRegisterMap.GetPackedFloatConstantIndex scenario_map 130
  = Some (set_bits_below scenario_map 130)
  ∧ 0 ≤ set_bits_below scenario_map 130 < popcount scenario_map
  ∧ set_bits_below scenario_map 130 ≠ UINT32_MAX.
Proof.
  apply (proj1 (proj1 packed_index_is_rank_of_set_bit scenario_map
                  scenario_map_well_formed eq_refl) 130).
  - lia.
  - reflexivity.
Defined.

(** C2 (amended): with dynamic addressing, [GetPackedFloatConstantIndex]
    returns every index of 0..255 unchanged, whatever the float bitmap
    holds, and never [UINT32_MAX] there; for an index of 256 or more it
    returns [UINT32_MAX], as it does without dynamic addressing. *)
Theorem packed_index_dynamic_identity (m : ConstantRegisterMap.t) :
  ConstantRegisterMap.float_dynamic_addressing m = true →
  (∀ c, 0 ≤ c < 256 →
     ConstantRegisterMap.GetPackedFloatConstantIndex m c = Some c
     ∧ ConstantRegisterMap.GetPackedFloatConstantIndex m c ≠ Some UINT32_MAX)
  ∧ (∀ c, 256 ≤ c →
       ConstantRegisterMap.GetPackedFloatConstantIndex m c = Some UINT32_MAX).
Proof.
  intros Hdynamic. unfold ConstantRegisterMap.GetPackedFloatConstantIndex.
  split.
  - intros c Hc. rewrite (proj2 (Z.leb_gt 256 c)) by lia. rewrite Hdynamic.
    split; [done|]. intros [= Heq]. unfold UINT32_MAX in Heq. lia.
  - intros c Hc. by rewrite (proj2 (Z.leb_le 256 c)) by lia.
Qed.

Lemma packed_index_dynamic_identity_witness :
  ConstantRegisterMap.GetPackedFloatConstantIndex dynamic_map 255 = Some 255
  ∧ ConstantRegisterMap.GetPackedFloatConstantIndex dynamic_map 255
    ≠ Some UINT32_MAX.
Proof.
  apply (proj1 (packed_index_dynamic_identity dynamic_map eq_refl) 255). lia.
Defined.

(** C2, as stated, fails: with dynamic addressing the float-constant
    index 300 is not returned unchanged, it is answered with
    [UINT32_MAX]. *)
Lemma packed_index_dynamic_out_of_range :
  ConstantRegisterMap.float_dynamic_addressing dynamic_map = true
  ∧ ConstantRegisterMap.GetPackedFloatConstantIndex dynamic_map 300
    = Some UINT32_MAX
  ∧ ConstantRegisterMap.GetPackedFloatConstantIndex dynamic_map 300
    ≠ Some 300.
Proof. repeat split. intros [=]. Qed.

(** * Further properties of the queries *)

(** ** Swizzle sources, component indices and their characters *)

(** X1: a component index of 0..3 casts to one of x, y, z, w (never to a
    constant), the cast is undone by the enumerator's value, and the
    character of the swizzle source it gives is the character of the
    component index; every swizzle source is the cast of its own value and
    has a character, and two sources with one character are one source. *)
Theorem component_index_swizzle_round_trip :
  (∀ i, 0 ≤ i < 4 →
     ∃ s, GetSwizzleFromComponentIndex i = Some s
          ∧ s ≠ SwizzleSource.k0 ∧ s ≠ SwizzleSource.k1
          ∧ SwizzleSource.to_uint32 s = i
          ∧ is_Some (GetCharForComponentIndex i)
          ∧ GetCharForSwizzle s = GetCharForComponentIndex i)
  ∧ (∀ s, GetSwizzleFromComponentIndex (SwizzleSource.to_uint32 s) = Some s
          ∧ is_Some (GetCharForSwizzle s))
  ∧ (∀ s s', GetCharForSwizzle s = GetCharForSwizzle s' → s = s')
  ∧ (∀ i, 4 ≤ i → GetCharForComponentIndex i = None)
  ∧ (∀ i, 6 ≤ i → GetSwizzleFromComponentIndex i = None).
Proof.
  split; [|split; [|split; [|split]]].
  - intros i Hi.
    destruct (lane_cases i Hi) as [-> | [-> | [-> | ->]]];
      eexists; (split; [reflexivity|]); repeat split; try discriminate;
      by eexists.
  - intros []; split; try reflexivity; by eexists.
  - intros [] []; vm_compute; congruence.
  - intros i Hi. unfold GetCharForComponentIndex.
    destruct (at_index _ i) eqn:Hlookup; [|done].
    assert (is_Some (at_index [# "x"; "y"; "z"; "w"]%char i)) as Hsome
      by (by eexists).
    apply at_index_is_Some in Hsome. simpl in Hsome. lia.
  - intros i Hi. destruct i as [|p|p]; [lia| |done].
    do 3 (destruct p as [p|p|]; try lia; try reflexivity).
Qed.

(** ** InstructionOperand: swizzle queries *)

(** X2: when [component_count] is 0 (the subtraction wraps to
    [UINT32_MAX]) or at least 4, [GetComponent] does not replicate: for
    every lane of 0..3 it returns [components] at that lane; and whatever
    [component_count] holds, the access for a lane of 0..3 stays inside the
    array. *)
Theorem GetComponent_without_replication (o : InstructionOperand.t) :
  (∀ i, 0 ≤ i ≤ 3 → is_Some (InstructionOperand.GetComponent o i))
  ∧ (InstructionOperand.component_count o = 0
     ∨ 4 ≤ InstructionOperand.component_count o < 2 ^ 32 →
     ∀ i, 0 ≤ i ≤ 3 →
       InstructionOperand.GetComponent o i
       = at_index (InstructionOperand.components o) i).
Proof.
  split.
  - intros i Hi. destruct (GetComponent_lane o i Hi) as [k Hk]. by eexists.
  - intros Hcount i Hi. unfold InstructionOperand.GetComponent. f_equal.
    destruct Hcount as [-> | Hcount].
    + change (uint32 (0 - 1)) with (2 ^ 32 - 1). lia.
    + rewrite uint32_small by lia. lia.
Qed.

Lemma GetComponent_without_replication_witness :
  let o := FieldChange.set_operand (FieldChange.o_component_count 0)
             InstructionOperand.default in
  InstructionOperand.GetComponent o 2
  = at_index (InstructionOperand.components o) 2.
Proof.
  intros o.
  apply (proj2 (GetComponent_without_replication o)).
  - left. reflexivity.
  - lia.
Defined.

(** X3: an operand in standard swizzle has exactly four components, and
    its component at every lane of 0..3 is the swizzle source of that
    index; an operand whose [component_count] is not 4 is never in standard
    swizzle, even with the components x, y, z, w. *)
Theorem operand_standard_swizzle_is_identity (o : InstructionOperand.t) :
  (InstructionOperand.IsStandardSwizzle o = true →
   InstructionOperand.component_count o = 4
   ∧ ∀ i, 0 ≤ i ≤ 3 →
       InstructionOperand.GetComponent o i = GetSwizzleFromComponentIndex i)
  ∧ (InstructionOperand.component_count o ≠ 4 →
     InstructionOperand.IsStandardSwizzle o = false)
  ∧ (InstructionOperand.component_count o = 4 →
     (∀ i, 0 ≤ i ≤ 3 →
        InstructionOperand.GetComponent o i = GetSwizzleFromComponentIndex i) →
     InstructionOperand.IsStandardSwizzle o = true).
Proof.
  split; [|split].
  - intros Hstandard.
    apply standard_swizzle_components in Hstandard as [Hcount Hxyzw].
    split; [done|]. intros i Hi. unfold InstructionOperand.GetComponent.
    rewrite Hcount, Hxyzw.
    assert (i = 0 ∨ i = 1 ∨ i = 2 ∨ i = 3) as [-> | [-> | [-> | ->]]] by lia;
      reflexivity.
  - intros Hcount.
    destruct (InstructionOperand.IsStandardSwizzle o) eqn:Hstandard; [|done].
    apply standard_swizzle_components in Hstandard as [? _]. done.
  - destruct o as [src ix am ng ab cc cs].
    inv_vec cs; intros c0 c1 c2 c3. simpl. intros -> Hlanes.
    apply standard_swizzle_components. simpl. split; [done|].
    pose proof (Hlanes 0 ltac:(lia)) as H0.
    pose proof (Hlanes 1 ltac:(lia)) as H1.
    pose proof (Hlanes 2 ltac:(lia)) as H2.
    pose proof (Hlanes 3 ltac:(lia)) as H3.
    vm_compute in H0, H1, H2, H3. unfold xyzw. congruence.
Qed.

Lemma operand_standard_swizzle_is_identity_witness :
  InstructionOperand.component_count InstructionOperand.default = 4
  ∧ ∀ i, 0 ≤ i ≤ 3 →
      InstructionOperand.GetComponent InstructionOperand.default i
      = GetSwizzleFromComponentIndex i.
Proof.
  apply (proj1 (operand_standard_swizzle_is_identity
                  InstructionOperand.default)).
  reflexivity.
Defined.

(** ** InstructionOperand: comparing two operands *)

Lemma four_bit_mask_eq (m m' : Z) :
  0 ≤ m < 16 → 0 ≤ m' < 16 →
  (∀ i, 0 ≤ i < 4 → Z.testbit m i = Z.testbit m' i) → m = m'.
Proof.
  intros Hm Hm' Hbits. apply Z.bits_inj'. intros n Hn.
  destruct (decide (n < 4)) as [Hlow | Hhigh]; [apply Hbits; lia|].
  rewrite <- (Z.mod_small m (2 ^ 4)), <- (Z.mod_small m' (2 ^ 4)) by done.
  by rewrite !Z.mod_pow2_bits_high by lia.
Qed.

Lemma bool_decide_ne_sym `{EqDecision A} (x y : A) :
  bool_decide (x ≠ y) = bool_decide (y ≠ x).
Proof. apply bool_decide_ext. split; intros Hne Heq; by apply Hne. Qed.

(** What [GetAbsoluteIdenticalComponents] returns, guard and loop
    together: a 4-bit mask whose bit [i] is set exactly when the two
    operands name the same storage and agree at lane [i]. *)
Lemma absolute_identical_bits (a b : InstructionOperand.t) :
  ∃ m, InstructionOperand.GetAbsoluteIdenticalComponents a b = Some m
       ∧ 0 ≤ m < 16
       ∧ ∀ i, 0 ≤ i < 4 →
           (Z.testbit m i = true
            ↔ same_storage a b
              ∧ InstructionOperand.GetComponent a i
                = InstructionOperand.GetComponent b i).
Proof.
  unfold InstructionOperand.GetAbsoluteIdenticalComponents, same_storage.
  destruct (_ || _ || _) eqn:Eguard.
  - exists 0. split; [done|]. split; [lia|]. intros i Hi.
    rewrite Z.bits_0. split; [done|]. intros [(Hs & Hi' & Hm) _].
    rewrite !orb_true_iff, !bool_decide_eq_true in Eguard. tauto.
  - rewrite !orb_false_iff, !bool_decide_ne_false in Eguard.
    destruct (identical_components_loop a b) as (m & Hm & Hrange & Hbits).
    exists m. split; [done|]. split; [done|]. intros i Hi.
    rewrite (Hbits i Hi). tauto.
Qed.

(** X4: both comparison functions are symmetric in their two operands. *)
Theorem identical_components_symmetric (a b : InstructionOperand.t) :
  InstructionOperand.GetAbsoluteIdenticalComponents a b
  = InstructionOperand.GetAbsoluteIdenticalComponents b a
  ∧ InstructionOperand.GetIdenticalComponents a b
    = InstructionOperand.GetIdenticalComponents b a.
Proof.
  assert (Habs : InstructionOperand.GetAbsoluteIdenticalComponents a b
                 = InstructionOperand.GetAbsoluteIdenticalComponents b a).
  { destruct (absolute_identical_bits a b) as (m & -> & Hm & Hbits).
    destruct (absolute_identical_bits b a) as (m' & -> & Hm' & Hbits').
    f_equal. apply four_bit_mask_eq; [done..|]. intros i Hi.
    apply eq_true_iff_eq. rewrite (Hbits i Hi), (Hbits' i Hi).
    unfold same_storage. split; intros [(-> & -> & ->) ->]; done. }
  split; [done|].
  unfold InstructionOperand.GetIdenticalComponents.
  rewrite (bool_decide_ne_sym (InstructionOperand.is_negated a)),
    (bool_decide_ne_sym (InstructionOperand.is_absolute_value a)).
  by rewrite Habs.
Qed.

(** X5: an operand compared with itself is identical in all four lanes,
    for both comparison functions, whatever its fields hold. *)
Theorem identical_components_reflexive (a : InstructionOperand.t) :
  InstructionOperand.GetAbsoluteIdenticalComponents a a = Some 15
  ∧ InstructionOperand.GetIdenticalComponents a a = Some 15.
Proof.
  assert (Habs : InstructionOperand.GetAbsoluteIdenticalComponents a a
                 = Some 15).
  { destruct (absolute_identical_bits a a) as (m & -> & Hm & Hbits).
    f_equal. apply low_four_bits_set; [done|]. intros i Hi.
    apply Hbits; [lia|]. by unfold same_storage. }
  split; [done|].
  unfold InstructionOperand.GetIdenticalComponents.
  by rewrite !bool_decide_eq_false_2, Habs by (by intros []).
Qed.

(** X6: the lanes [GetIdenticalComponents] reports are always among the
    lanes [GetAbsoluteIdenticalComponents] reports: its result is either 0
    or the result of the absolute comparison, and both are 4-bit masks. *)
Theorem identical_within_absolute_identical (a b : InstructionOperand.t) :
  ∃ m m',
    InstructionOperand.GetIdenticalComponents a b = Some m
    ∧ InstructionOperand.GetAbsoluteIdenticalComponents a b = Some m'
    ∧ (m = 0 ∨ m = m')
    ∧ Z.land m m' = m
    ∧ 0 ≤ m < 16 ∧ 0 ≤ m' < 16
    ∧ (InstructionOperand.is_negated a = InstructionOperand.is_negated b →
       InstructionOperand.is_absolute_value a
       = InstructionOperand.is_absolute_value b →
       m = m').
Proof.
  destruct (absolute_identical_bits a b) as (m' & Habs & Hm' & _).
  unfold InstructionOperand.GetIdenticalComponents. rewrite Habs.
  destruct (_ || _) eqn:Eflags.
  - exists 0, m'. split; [done|]. split; [done|]. split; [by left|].
    split; [reflexivity|]. split; [lia|]. split; [done|].
    intros Hneg Habsval.
    rewrite orb_true_iff, !bool_decide_eq_true in Eflags. tauto.
  - exists m', m'. split; [done|]. split; [done|]. split; [by right|].
    split; [apply Z.land_diag|]. done.
Qed.

(** ** InstructionResult: the source components a result uses *)

Lemma to_uint32_injective (s s' : SwizzleSource.t) :
  SwizzleSource.to_uint32 s = SwizzleSource.to_uint32 s' → s = s'.
Proof. destruct s, s'; simpl; intros Heq; try reflexivity; lia. Qed.

(** One iteration of the loop: bit [j] of [used_components] is set
    afterwards when it was set before, or when lane [i] is written and takes
    the source component of value [j]. *)
Lemma used_result_components_step_bits (cs : vec SwizzleSource.t 4)
    (m i acc : Z) (c : SwizzleSource.t) :
  at_index cs i = Some c → 0 ≤ i →
  ∃ acc',
    InstructionResult.used_result_components_step cs m i acc = Some acc'
    ∧ ∀ j, 0 ≤ j →
        Z.testbit acc' j
        = Z.testbit acc j
          || (Z.testbit m i
              && bool_decide (c ≠ SwizzleSource.k0 ∧ c ≠ SwizzleSource.k1)
              && (SwizzleSource.to_uint32 c =? j)).
Proof.
  intros Hc Hi. unfold InstructionResult.used_result_components_step.
  rewrite Hc. cbn [mbind option_bind]. eexists. split; [reflexivity|].
  intros j Hj.
  assert (Hvalue : uint32 (SwizzleSource.to_uint32 c
                           - SwizzleSource.to_uint32 SwizzleSource.kX)
                   = SwizzleSource.to_uint32 c) by (by destruct c).
  assert (Hsource :
    (SwizzleSource.to_uint32 SwizzleSource.kX <=? SwizzleSource.to_uint32 c)
    && (SwizzleSource.to_uint32 c <=? SwizzleSource.to_uint32 SwizzleSource.kW)
    = bool_decide (c ≠ SwizzleSource.k0 ∧ c ≠ SwizzleSource.k1))
    by (by destruct c).
  assert (Hnonneg : 0 ≤ SwizzleSource.to_uint32 c) by (destruct c; simpl; lia).
  rewrite Hvalue, !Z.shiftl_1_l, land_pow2_testbit, negb_involutive by done.
  rewrite <- andb_assoc, Hsource.
  destruct (Z.testbit m i && bool_decide _) eqn:Elane.
  - by rewrite Z.lor_spec, Z.pow2_bits_eqb by done.
  - by rewrite orb_false_r.
Qed.

(** X7: [GetUsedResultComponents] always returns a 4-bit mask; its bit
    for a source component x, y, z or w is set exactly when some lane that
    is set in the used write mask takes that component; lanes fed by the
    constants 0 and 1 set no bit; and with an empty used write mask (so for
    every result whose target is [kNone]) it is 0. *)
Theorem GetUsedResultComponents_written_sources (r : InstructionResult.t) :
  ∃ used,
    InstructionResult.GetUsedResultComponents r = Some used
    ∧ 0 ≤ used ≤ 15
    ∧ (InstructionResult.GetUsedWriteMask r = 0 → used = 0)
    ∧ (InstructionResult.storage_target r = InstructionStorageTarget.kNone →
       used = 0)
    ∧ ∀ s : SwizzleSource.t,
        Z.testbit used (SwizzleSource.to_uint32 s) = true
        ↔ s ≠ SwizzleSource.k0 ∧ s ≠ SwizzleSource.k1
          ∧ ∃ lane : fin 4,
              Z.testbit (InstructionResult.GetUsedWriteMask r)
                (Z.of_nat (fin_to_nat lane)) = true
              ∧ InstructionResult.components r !!! lane = s.
Proof.
  unfold InstructionResult.GetUsedResultComponents. cbv zeta.
  assert (Hnone : InstructionResult.storage_target r
                  = InstructionStorageTarget.kNone →
                  InstructionResult.GetUsedWriteMask r = 0).
  { intros Htarget. pose proof (used_write_mask_bounds r) as Hbounds.
    rewrite Htarget in Hbounds. simpl in Hbounds. lia. }
  generalize dependent (InstructionResult.GetUsedWriteMask r). intros m Hnone.
  destruct r as [tg ix am cl wm cs]. simpl in *.
  inv_vec cs; intros c0 c1 c2 c3.
  rewrite for_upto_4.
  destruct (used_result_components_step_bits [# c0; c1; c2; c3] m 0 0 c0)
    as (u0 & -> & Hu0); [reflexivity | lia |].
  destruct (used_result_components_step_bits [# c0; c1; c2; c3] m 1 u0 c1)
    as (u1 & Hs1 & Hu1); [reflexivity | lia |].
  destruct (used_result_components_step_bits [# c0; c1; c2; c3] m 2 u1 c2)
    as (u2 & Hs2 & Hu2); [reflexivity | lia |].
  destruct (used_result_components_step_bits [# c0; c1; c2; c3] m 3 u2 c3)
    as (used & Hs3 & Hu3); [reflexivity | lia |].
  cbn [mbind option_bind]. rewrite Hs1. cbn [mbind option_bind].
  rewrite Hs2. cbn [mbind option_bind]. rewrite Hs3.
  assert (Hbits : ∀ j, 0 ≤ j →
    Z.testbit used j
    = (Z.testbit m 0
       && bool_decide (c0 ≠ SwizzleSource.k0 ∧ c0 ≠ SwizzleSource.k1)
       && (SwizzleSource.to_uint32 c0 =? j))
      || (Z.testbit m 1
          && bool_decide (c1 ≠ SwizzleSource.k0 ∧ c1 ≠ SwizzleSource.k1)
          && (SwizzleSource.to_uint32 c1 =? j))
      || (Z.testbit m 2
          && bool_decide (c2 ≠ SwizzleSource.k0 ∧ c2 ≠ SwizzleSource.k1)
          && (SwizzleSource.to_uint32 c2 =? j))
      || (Z.testbit m 3
          && bool_decide (c3 ≠ SwizzleSource.k0 ∧ c3 ≠ SwizzleSource.k1)
          && (SwizzleSource.to_uint32 c3 =? j))).
  { intros j Hj. by rewrite Hu3, Hu2, Hu1, Hu0, Z.bits_0 by done. }
  clear Hu0 Hu1 Hu2 Hu3 Hs1 Hs2 Hs3 u0 u1 u2.
  assert (Hhigh : ∀ j, 4 ≤ j → Z.testbit used j = false).
  { intros j Hj. rewrite Hbits by lia.
    assert (Hlane : ∀ c : SwizzleSource.t,
              bool_decide (c ≠ SwizzleSource.k0 ∧ c ≠ SwizzleSource.k1) = false
              ∨ SwizzleSource.to_uint32 c ≠ j).
    { intros []; first [by left | right; simpl; lia]. }
    rewrite !orb_false_iff, !andb_false_iff, !Z.eqb_neq.
    pose proof (Hlane c0). pose proof (Hlane c1).
    pose proof (Hlane c2). pose proof (Hlane c3). tauto. }
  assert (Hmod : used = used mod 2 ^ 4).
  { apply Z.bits_inj'. intros j Hj. rewrite Z.testbit_mod_pow2 by lia.
    destruct (Z.ltb_spec j 4) as [Hlow | Hge]; [done|].
    by rewrite Hhigh by lia. }
  assert (Hempty : m = 0 → used = 0).
  { intros ->. apply Z.bits_inj'. intros j Hj.
    by rewrite Hbits, !Z.bits_0 by done. }
  exists used. split; [done|]. split.
  { pose proof (Z.mod_pos_bound used (2 ^ 4) ltac:(lia)) as Hrange.
    rewrite <- Hmod in Hrange. lia. }
  split; [done|]. split; [by intros Htarget; apply Hempty, Hnone|].
  intros s.
  rewrite Hbits by (destruct s; simpl; lia).
  rewrite !orb_true_iff, !andb_true_iff, !bool_decide_eq_true, !Z.eqb_eq.
  split.
  - intros [[[Hlane | Hlane] | Hlane] | Hlane];
      destruct Hlane as [[Hm [Hk0 Hk1]] Heq];
      apply to_uint32_injective in Heq; subst s;
      (split; [done|]); (split; [done|]).
    + by exists 0%fin.
    + by exists 1%fin.
    + by exists 2%fin.
    + by exists 3%fin.
  - intros (Hk0 & Hk1 & lane & Hm & Hs).
    inv_fin lane; [|intros lane; inv_fin lane;
                     [|intros lane; inv_fin lane;
                         [|intros lane; inv_fin lane;
                             [|intros lane; inv_fin lane]]]];
      simpl; intros Hm Hs; subst s; tauto.
Qed.

(** X8: a result in standard swizzle writes all four lanes of a target
    that holds four components, with the swizzle [xyzw], and uses all four
    source components. *)
Theorem result_standard_swizzle_uses_all (r : InstructionResult.t) :
  InstructionResult.IsStandardSwizzle r = true →
  InstructionResult.GetUsedWriteMask r = 15
  ∧ GetInstructionStorageTargetUsedComponents
      (InstructionResult.storage_target r) = 15
  ∧ InstructionResult.components r = xyzw
  ∧ InstructionResult.GetUsedResultComponents r = Some 15.
Proof.
  unfold InstructionResult.IsStandardSwizzle.
  rewrite !andb_true_iff, !bool_decide_eq_true, Z.eqb_eq.
  intros ((((Hmask & H0) & H1) & H2) & H3).
  pose proof (used_write_mask_bounds r) as Hbounds.
  assert (Hfixed : GetInstructionStorageTargetUsedComponents
                     (InstructionResult.storage_target r) ≤ 15)
    by (destruct (InstructionResult.storage_target r); simpl; lia).
  assert (Hxyzw : InstructionResult.components r = xyzw).
  { clear Hmask Hbounds Hfixed. destruct r as [tg ix am cl wm cs].
    simpl in *. revert H0 H1 H2 H3. inv_vec cs; intros c0 c1 c2 c3. simpl.
    by intros -> -> -> ->. }
  split; [done|]. split; [lia|]. split; [done|].
  apply GetUsedResultComponents_all_four. split; [done|].
  rewrite Hxyzw. by apply (bool_decide_unpack _).
Qed.

Lemma result_standard_swizzle_uses_all_witness :
  let r := ParsedAluInstruction.vector_and_constant_result
             (export_address_mad (H := sample_ucode.instance) xyzw 5) in
  InstructionResult.GetUsedWriteMask r = 15
  ∧ GetInstructionStorageTargetUsedComponents
      (InstructionResult.storage_target r) = 15
  ∧ InstructionResult.components r = xyzw
  ∧ InstructionResult.GetUsedResultComponents r = Some 15.
Proof.
  intros r. apply (result_standard_swizzle_uses_all r). reflexivity.
Defined.

(** ** ParsedAluInstruction: how the three tests relate *)

Section alu_tests_together.
Context `{ucode.decls}.
Implicit Types i : ParsedAluInstruction.t.

(** A recognised memexport address write has a used write mask of
    0b1111 on its vector result. *)
Lemma stream_constant_mad_writes_all i :
  ParsedAluInstruction.is_stream_constant_mad i = Some true →
  InstructionResult.GetUsedWriteMask
    (ParsedAluInstruction.vector_and_constant_result i) = 15
  ∧ InstructionResult.storage_target
      (ParsedAluInstruction.vector_and_constant_result i)
    = InstructionStorageTarget.kExportAddress
  ∧ ParsedAluInstruction.vector_opcode i = ucode.kMad.
Proof.
  intros Hmatched.
  destruct (is_stream_constant_mad_spec i) as (matched & Heq & Hiff).
  rewrite Hmatched in Heq. injection Heq as <-.
  destruct (proj1 Hiff eq_refl) as (Htarget & Hop & Hused & _).
  apply GetUsedResultComponents_all_four in Hused as [Hmask _].
  done.
Qed.

(** X9: an instruction whose vector and scalar operations are both
    default no-ops for disassembly sends its vector result to a register
    and has both used write masks empty; it is a no-op for translation
    exactly when [kMax] has no side effects. *)
Theorem default_nops_give_translation_nop i :
  ParsedAluInstruction.IsVectorOpDefaultNop i = true →
  ParsedAluInstruction.IsScalarOpDefaultNop i = true →
  InstructionResult.storage_target
    (ParsedAluInstruction.vector_and_constant_result i)
  = InstructionStorageTarget.kRegister
  ∧ InstructionResult.GetUsedWriteMask
      (ParsedAluInstruction.vector_and_constant_result i) = 0
  ∧ InstructionResult.GetUsedWriteMask (ParsedAluInstruction.scalar_result i)
    = 0
  ∧ ParsedAluInstruction.IsNop i
    = negb (ucode.AluVectorOpHasSideEffects ucode.kMax).
Proof.
  intros Hvector Hscalar.
  apply IsVectorOpDefaultNop_true in Hvector
    as ((Hop & Hvmask & _) & _ & Hexport).
  apply IsScalarOpDefaultNop_true in Hscalar as (Hsop & Hsmask & Hsclamp & Hsreg).
  assert (Htarget : InstructionResult.storage_target
                      (ParsedAluInstruction.vector_and_constant_result i)
                    = InstructionStorageTarget.kRegister).
  { destruct (decide (InstructionResult.storage_target
                        (ParsedAluInstruction.vector_and_constant_result i)
                      = InstructionStorageTarget.kRegister)) as [|Hne];
      [done|].
    specialize (Hexport Hne).
    apply not_true_iff_false in Hexport. destruct Hexport.
    apply IsScalarOpDefaultNop_true. cbv zeta. tauto. }
  assert (Hvused : InstructionResult.GetUsedWriteMask
                     (ParsedAluInstruction.vector_and_constant_result i) = 0)
    by (unfold InstructionResult.GetUsedWriteMask; by rewrite Hvmask).
  assert (Hsused : InstructionResult.GetUsedWriteMask
                     (ParsedAluInstruction.scalar_result i) = 0)
    by (unfold InstructionResult.GetUsedWriteMask; by rewrite Hsmask).
  split; [done|]. split; [done|]. split; [done|].
  unfold ParsedAluInstruction.IsNop.
  rewrite Hvused, Hsused, Hop, bool_decide_eq_true_2 by done. reflexivity.
Qed.

(** X10: a no-op, for translation or as a default vector operation for
    disassembly, is never taken for a memexport address write; and when
    [GetMemExportStreamConstant] returns an index other than [UINT32_MAX],
    it is the storage index of the third vector operand of a [kMad] to the
    export address, and the instruction is a no-op for neither test. *)
Theorem memexport_write_is_not_a_nop i :
  (ParsedAluInstruction.IsNop i = true →
   ParsedAluInstruction.GetMemExportStreamConstant i = Some UINT32_MAX)
  ∧ (ParsedAluInstruction.IsVectorOpDefaultNop i = true →
     ParsedAluInstruction.GetMemExportStreamConstant i = Some UINT32_MAX)
  ∧ (∀ k, ParsedAluInstruction.GetMemExportStreamConstant i = Some k →
          k ≠ UINT32_MAX →
          k = InstructionOperand.storage_index
                (ParsedAluInstruction.vector_operands i !!! 2%fin)
          ∧ InstructionResult.storage_target
              (ParsedAluInstruction.vector_and_constant_result i)
            = InstructionStorageTarget.kExportAddress
          ∧ ParsedAluInstruction.vector_opcode i = ucode.kMad
          ∧ ParsedAluInstruction.IsNop i = false
          ∧ ParsedAluInstruction.IsVectorOpDefaultNop i = false).
Proof.
  destruct (is_stream_constant_mad_spec i) as (matched & Hmatched & _).
  assert (Hnop : ParsedAluInstruction.IsNop i = true → matched = false).
  { intros Hnop. destruct matched; [|done].
    destruct (stream_constant_mad_writes_all i Hmatched) as (Hmask & _).
    unfold ParsedAluInstruction.IsNop in Hnop.
    rewrite !andb_true_iff, Z.eqb_eq in Hnop. lia. }
  assert (Hdefault : ParsedAluInstruction.IsVectorOpDefaultNop i = true →
                     matched = false).
  { intros Hvector. destruct matched; [|done].
    destruct (stream_constant_mad_writes_all i Hmatched) as (Hmask & _).
    apply IsVectorOpDefaultNop_true in Hvector as ((_ & Hzero & _) & _).
    unfold InstructionResult.GetUsedWriteMask in Hmask.
    rewrite Hzero in Hmask. done. }
  unfold ParsedAluInstruction.GetMemExportStreamConstant.
  rewrite Hmatched. cbn [mbind option_bind].
  split; [|split].
  - intros Hn. by rewrite (Hnop Hn).
  - intros Hv. by rewrite (Hdefault Hv).
  - intros k [= Hk] Hfound. destruct matched; [|congruence].
    destruct (stream_constant_mad_writes_all i Hmatched)
      as (_ & Htarget & Hop).
    split; [done|]. split; [done|]. split; [done|]. split.
    + destruct (ParsedAluInstruction.IsNop i) eqn:En; [|done].
      by specialize (Hnop eq_refl).
    + destruct (ParsedAluInstruction.IsVectorOpDefaultNop i) eqn:Ev; [|done].
      by specialize (Hdefault eq_refl).
Qed.

End alu_tests_together.

Lemma default_nops_give_translation_nop_witness :
  let i := FieldChange.set_alu (FieldChange.a_scalar_opcode ucode.kRetainPrev)
             (omitted_vector_op (H := sample_ucode.instance)) in
  InstructionResult.storage_target
    (ParsedAluInstruction.vector_and_constant_result i)
  = InstructionStorageTarget.kRegister
  ∧ InstructionResult.GetUsedWriteMask
      (ParsedAluInstruction.vector_and_constant_result i) = 0
  ∧ InstructionResult.GetUsedWriteMask (ParsedAluInstruction.scalar_result i)
    = 0
  ∧ ParsedAluInstruction.IsNop i = true.
Proof.
  intros i. apply (default_nops_give_translation_nop i); reflexivity.
Defined.

Lemma memexport_write_is_not_a_nop_witness :
  let i := export_address_mad (H := sample_ucode.instance) xyzw 5 in
  5 = InstructionOperand.storage_index
        (ParsedAluInstruction.vector_operands i !!! 2%fin)
  ∧ InstructionResult.storage_target
      (ParsedAluInstruction.vector_and_constant_result i)
    = InstructionStorageTarget.kExportAddress
  ∧ ParsedAluInstruction.vector_opcode i = ucode.kMad
  ∧ ParsedAluInstruction.IsNop i = false
  ∧ ParsedAluInstruction.IsVectorOpDefaultNop i = false.
Proof.
  intros i.
  apply (proj2 (proj2 (memexport_write_is_not_a_nop i)) 5).
  - reflexivity.
  - intros Heq. vm_compute in Heq. discriminate.
Defined.

(** ** ConstantRegisterMap: further properties of the packing *)

Lemma count_below_all (P : Z → bool) (n : nat) :
  (∀ j, 0 ≤ j < Z.of_nat n → P j = true) → count_below P n = Z.of_nat n.
Proof.
  induction n as [|n IH]; intros Hall; [reflexivity|].
  cbn [count_below]. rewrite IH, (Hall (Z.of_nat n)) by (intros; try apply Hall; lia).
  simpl. lia.
Qed.

(** What the function returns on an index of 0..255, with or without
    dynamic addressing. *)
Lemma packed_index_in_range (m : ConstantRegisterMap.t) (c : Z) :
  ConstantRegisterMap.well_formed m → 0 ≤ c < 256 →
  ConstantRegisterMap.GetPackedFloatConstantIndex m c
  = Some (if ConstantRegisterMap.float_dynamic_addressing m then c
          else if ConstantRegisterMap.float_bit m c then set_bits_below m c
               else UINT32_MAX).
Proof.
  intros Hwf Hc.
  destruct (ConstantRegisterMap.float_dynamic_addressing m) eqn:Hflag.
  - unfold ConstantRegisterMap.GetPackedFloatConstantIndex.
    by rewrite (proj2 (Z.leb_gt 256 c)), Hflag by lia.
  - by apply packed_index_static.
Qed.

(** X11: on a well-formed map the function always returns; it returns
    [UINT32_MAX] exactly for an index of 256 or more and, without dynamic
    addressing, for an index whose bit is unset; every other result is a
    packed index that is at most the index itself, hence below 256. *)
Theorem packed_index_bounds (m : ConstantRegisterMap.t) (c : Z) :
  ConstantRegisterMap.well_formed m → 0 ≤ c →
  ∃ k, ConstantRegisterMap.GetPackedFloatConstantIndex m c = Some k
       ∧ (k = UINT32_MAX ∨ 0 ≤ k ≤ c ∧ c < 256)
       ∧ (k = UINT32_MAX
          ↔ 256 ≤ c
            ∨ ConstantRegisterMap.float_dynamic_addressing m = false
              ∧ ConstantRegisterMap.float_bit m c = false).
Proof.
  intros Hwf Hc.
  assert (Hmax : UINT32_MAX = 4294967295) by reflexivity.
  destruct (decide (256 ≤ c)) as [Hout | Hin].
  - exists UINT32_MAX. split.
    + unfold ConstantRegisterMap.GetPackedFloatConstantIndex.
      by rewrite (proj2 (Z.leb_le 256 c)) by done.
    + split; [by left|]. split; [by left|done].
  - rewrite (packed_index_in_range m c Hwf) by lia.
    pose proof (set_bits_below_bounds m c Hc) as Hrank.
    destruct (ConstantRegisterMap.float_dynamic_addressing m);
      [|destruct (ConstantRegisterMap.float_bit m c)];
      eexists; (split; [reflexivity|]).
    + split; [right; lia|]. split; [lia|]. intros [?|[? _]]; [lia|done].
    + split; [right; lia|]. split; [lia|]. intros [?|[_ ?]]; [lia|done].
    + split; [by left|]. split; [by right|done].
Qed.

Lemma packed_index_bounds_witness :
  ∃ k, ConstantRegisterMap.GetPackedFloatConstantIndex scenario_map 130
       = Some k
       ∧ (k = UINT32_MAX ∨ 0 ≤ k ≤ 130 ∧ 130 < 256)
       ∧ (k = UINT32_MAX
          ↔ 256 ≤ 130
            ∨ ConstantRegisterMap.float_dynamic_addressing scenario_map = false
              ∧ ConstantRegisterMap.float_bit scenario_map 130 = false).
Proof.
  apply (packed_index_bounds scenario_map 130 scenario_map_well_formed). lia.
Defined.

(** X12: packing keeps the order of the constants: of two indices that
    are both found, the smaller one gets the smaller packed index, with or
    without dynamic addressing. *)
Theorem packed_index_order_preserving (m : ConstantRegisterMap.t)
    (c c' k k' : Z) :
  ConstantRegisterMap.well_formed m →
  0 ≤ c < c' →
  ConstantRegisterMap.GetPackedFloatConstantIndex m c = Some k →
  ConstantRegisterMap.GetPackedFloatConstantIndex m c' = Some k' →
  k ≠ UINT32_MAX → k' ≠ UINT32_MAX →
  k < k'.
Proof.
  intros Hwf Hc Hk Hk' Hfound Hfound'.
  assert (Hrange : c' < 256).
  { destruct (decide (256 ≤ c')) as [Hout|]; [|lia].
    unfold ConstantRegisterMap.GetPackedFloatConstantIndex in Hk'.
    rewrite (proj2 (Z.leb_le 256 c')) in Hk' by done. congruence. }
  rewrite (packed_index_in_range m c Hwf) in Hk by lia.
  rewrite (packed_index_in_range m c' Hwf) in Hk' by lia.
  destruct (ConstantRegisterMap.float_dynamic_addressing m).
  - injection Hk as <-. injection Hk' as <-. lia.
  - destruct (ConstantRegisterMap.float_bit m c) eqn:Hset; [|congruence].
    destruct (ConstantRegisterMap.float_bit m c'); [|congruence].
    injection Hk as <-. injection Hk' as <-.
    apply set_bits_below_strict; [lia|done].
Qed.

Lemma packed_index_order_preserving_witness :
  ConstantRegisterMap.GetPackedFloatConstantIndex scenario_map 5 = Some 1
  ∧ ConstantRegisterMap.GetPackedFloatConstantIndex scenario_map 130 = Some 2
  ∧ 1 < 2.
Proof.
  split; [reflexivity|]. split; [reflexivity|].
  apply (packed_index_order_preserving scenario_map 5 130 1 2
           scenario_map_well_formed); try reflexivity; try lia;
    intros Heq; vm_compute in Heq; discriminate.
Defined.

(** X13: when every bit of the float bitmap is set, as the comment on
    [float_dynamic_addressing] asks of a dynamically indexed shader, the
    packed index of every index of 0..255 is the index itself whether or
    not the dynamic-addressing flag is set. *)
Theorem packed_index_full_bitmap_identity (m : ConstantRegisterMap.t) :
  Forall (λ block, block = 2 ^ 64 - 1)
    (vec_to_list (ConstantRegisterMap.float_bitmap m)) →
  ∀ c, 0 ≤ c < 256 →
    ConstantRegisterMap.GetPackedFloatConstantIndex m c = Some c.
Proof.
  intros Hfull c Hc.
  assert (Hwf : ConstantRegisterMap.well_formed m).
  { unfold ConstantRegisterMap.well_formed.
    eapply Forall_impl; [exact Hfull|]. intros b ->. simpl. lia. }
  assert (Hbit : ∀ j, 0 ≤ j < 256 → ConstantRegisterMap.float_bit m j = true).
  { intros j Hj. unfold ConstantRegisterMap.float_bit.
    assert (Hq : 0 ≤ j / 64 < 4)
      by (split; [apply Z.div_pos | apply Z.div_lt_upper_bound]; lia).
    destruct (block_lookup m Hwf (j / 64) Hq) as (b & Hb & _).
    rewrite Hb. unfold at_index in Hb.
    rewrite bool_decide_eq_true_2 in Hb by lia.
    rewrite Forall_lookup in Hfull. rewrite (Hfull _ _ Hb).
    change (2 ^ 64 - 1) with (Z.ones 64).
    apply Z.ones_spec_low. apply Z.mod_pos_bound. lia. }
  rewrite (packed_index_in_range m c Hwf Hc).
  destruct (ConstantRegisterMap.float_dynamic_addressing m); [done|].
  rewrite (Hbit c Hc). f_equal. unfold set_bits_below.
  rewrite count_below_all; [lia|].
  intros j Hj. apply Hbit. lia.
Qed.

Lemma packed_index_full_bitmap_identity_witness :
  ConstantRegisterMap.GetPackedFloatConstantIndex
    {| ConstantRegisterMap.float_bitmap :=
         ConstantRegisterMap.float_bitmap dynamic_map;
       ConstantRegisterMap.loop_bitmap := 0;
       ConstantRegisterMap.bool_bitmap :=
         ConstantRegisterMap.bool_bitmap dynamic_map;
       ConstantRegisterMap.float_count := 256;
       ConstantRegisterMap.float_dynamic_addressing := false |} 200
  = Some 200.
Proof.
  apply packed_index_full_bitmap_identity.
  - repeat constructor.
  - lia.
Defined.
